(** * sb_todo: the list store, its persistence and its recurrence engine

    A shallow embedding of [custom_components/sb_todo/entity.py]:
    the [TodoItem] value type, the period parser [_parse_period], the
    mutating operations of [MyTodoList] and [_save_and_refresh], together
    with the properties the specification states about them; then the
    remove services of [__init__.py], the period parser of [intent.py] and
    further properties read off the code.

    Modelling conventions.
    - Text is [string]; the regular-expression class [\d] is read as the ten
      ASCII digits.
    - An instant ([due_datetime], the clock) is an integer number of epoch
      seconds.  Every offset the parser can produce is a whole number of
      minutes or more, so the sub-second part the source carries along is
      never touched.  The host's local zone is a fixed offset [tz] (seconds
      east of UTC), and civil dates are proleptic Gregorian without the
      range limits of Python's [datetime].
    - The entity is a long-lived mutable object: an operation returns the
      store it leaves behind, also when it raises.
    - The file of the list, the host state write and the subscriber
      callbacks are recorded as events of a trace, in order.  They belong
      to the host and are taken to succeed: a failing disk or a failing
      callback is outside the model. *)

From Stdlib Require Import ZArith Lia Ascii String List Sorted DecimalString.
From stdpp Require Import base option list strings gmap.

Local Open Scope Z_scope.

(** ** Text helpers *)

Module Text.

(** The class [\d]. *)
Definition is_digit (c : ascii) : bool :=
  let n := nat_of_ascii c in (48 <=? n)%nat && (n <=? 57)%nat.

Definition digit_value (c : ascii) : Z := Z.of_nat (nat_of_ascii c) - 48.

Fixpoint all_digits (s : string) : bool :=
  match s with
  | EmptyString => true
  | String c s' => is_digit c && all_digits s'
  end.

(** Python's [int(s)] on a string of decimal digits. *)
Fixpoint int_acc (acc : Z) (s : string) : Z :=
  match s with
  | EmptyString => acc
  | String c s' => int_acc (10 * acc + digit_value c) s'
  end.

Definition int (s : string) : Z := int_acc 0 s.

(** Python truthiness of a [str]: the empty string is falsy. *)
Definition nonempty (s : string) : bool :=
  match s with EmptyString => false | _ => true end.

(** Truthiness of an [Optional[str]]: [None] and [""] are falsy. *)
Definition truthy (o : option string) : bool :=
  match o with Some s => nonempty s | None => false end.

End Text.

(** ** Regular expressions (the fragment the source uses) *)

Module Re.

Inductive regex : Type :=
| Digit : regex                       (* \d *)
| Lit : string -> regex               (* a literal word *)
| Cat : regex -> regex -> regex       (* r1 r2 *)
| Alt : regex -> regex -> regex       (* r1 | r2 *)
| Plus : regex -> regex.              (* r+ *)

(** [matches r s]: the whole of [s] is in the language of [r]. *)
Inductive matches : regex -> string -> Prop :=
| m_digit c : Text.is_digit c = true -> matches Digit (String c EmptyString)
| m_lit w : matches (Lit w) w
| m_cat r1 r2 s1 s2 : matches r1 s1 -> matches r2 s2 -> matches (Cat r1 r2) (s1 +:+ s2)
| m_alt_l r1 r2 s : matches r1 s -> matches (Alt r1 r2) s
| m_alt_r r1 r2 s : matches r2 s -> matches (Alt r1 r2) s
| m_plus_one r s : matches r s -> matches (Plus r) s
| m_plus_more r s1 s2 : matches r s1 -> matches (Plus r) s2 -> matches (Plus r) (s1 +:+ s2).

(** The pattern of [_parse_period] and of [validate_period]:
    [(\d+)(minute|hour|day|week|month|year)]. *)
Definition unit_words : list string :=
  ["minute"; "hour"; "day"; "week"; "month"; "year"]%string.

Definition unit_re : regex :=
  Alt (Lit "minute") (Alt (Lit "hour") (Alt (Lit "day")
    (Alt (Lit "week") (Alt (Lit "month") (Lit "year"))))).

Definition period_re : regex := Cat (Plus Digit) unit_re.

(** The greedy scan of [\d+]: the longest prefix of digits and the rest. *)
Fixpoint span_digits (s : string) : string * string :=
  match s with
  | String c s' =>
      if Text.is_digit c
      then let '(d, r) := span_digits s' in (String c d, r)
      else (EmptyString, s)
  | EmptyString => (EmptyString, EmptyString)
  end.

(** [re.fullmatch(period_re, s)]: [None] when there is no match, otherwise
    the two groups.  No unit word starts with a digit, so the greedy scan
    of the first group never has to give characters back. *)
Definition fullmatch_period (s : string) : option (string * string) :=
  let '(num, rest) := span_digits s in
  if Text.nonempty num && bool_decide (rest ∈ unit_words)
  then Some (num, rest) else None.

(** A unit word is not empty and does not start with a digit. *)
Definition starts_with_letter (u : string) : bool :=
  match u with
  | EmptyString => false
  | String c _ => negb (Text.is_digit c)
  end.

End Re.

(** ** Offsets: [datetime.timedelta] and [dateutil.relativedelta] *)

Inductive delta : Type :=
| Fixed (seconds : Z)             (* a timedelta, as its total of seconds *)
| Calendar (years months : Z).    (* a relativedelta, normalised *)

Definition timedelta_minutes (n : Z) : delta := Fixed (60 * n).
Definition timedelta_hours (n : Z) : delta := Fixed (3600 * n).
Definition timedelta_days (n : Z) : delta := Fixed (86400 * n).
Definition timedelta_weeks (n : Z) : delta := Fixed (604800 * n).

(** [relativedelta(months=n)]: the constructor carries whole dozens of
    months over into years. *)
Definition relativedelta_months (n : Z) : delta := Calendar (n / 12) (n mod 12).
Definition relativedelta_years (n : Z) : delta := Calendar n 0.

(** [bool(d)]: a zero offset is falsy. *)
Definition delta_truthy (d : delta) : bool :=
  match d with
  | Fixed s => negb (s =? 0)
  | Calendar y m => negb ((y =? 0) && (m =? 0))
  end.

(** ** The period parser *)

Definition _parse_period (period_str : option string) : option delta :=
  if negb (Text.truthy period_str) then None else
  match period_str with
  | None => None
  | Some s =>
      match Re.fullmatch_period s with
      | None => None
      | Some (num, unit) =>
          let num := Text.int num in
          if String.eqb unit "minute" then Some (timedelta_minutes num)
          else if String.eqb unit "hour" then Some (timedelta_hours num)
          else if String.eqb unit "day" then Some (timedelta_days num)
          else if String.eqb unit "week" then Some (timedelta_weeks num)
          else if String.eqb unit "month" then Some (relativedelta_months num)
          else if String.eqb unit "year" then Some (relativedelta_years num)
          else None
      end
  end.


(** ** Civil time: [datetime], as the recurrence engine uses it *)

Module Cal.

Definition is_leap (y : Z) : bool :=
  ((y mod 4 =? 0) && negb (y mod 100 =? 0)) || (y mod 400 =? 0).

(** [calendar.monthrange(y, m)[1]]. *)
Definition days_in_month (y m : Z) : Z :=
  if m =? 2 then (if is_leap y then 29 else 28)
  else if (m =? 4) || (m =? 6) || (m =? 9) || (m =? 11) then 30
  else 31.

(** Days before January 1st of year [y]. *)
Definition days_before_year (y : Z) : Z :=
  let p := y - 1 in 365 * p + p / 4 - p / 100 + p / 400.

(** Days of the year before the first of month [m]. *)
Definition days_before_month (leap : bool) (m : Z) : Z :=
  nth (Z.to_nat m) [0; 0; 31; 59; 90; 120; 151; 181; 212; 243; 273; 304; 334] 0
  + (if (2 <? m) && leap then 1 else 0).

(** The proleptic Gregorian ordinal: January 1st of year 1 is day 1. *)
Definition ymd2ord (y m d : Z) : Z :=
  days_before_year y + days_before_month (is_leap y) m + d.

(** Month and day from the 0-based day of the year: the estimate
    [(n + 50) >> 5] is either exact or one too large. *)
Definition month_day (leap : bool) (n : Z) : Z * Z :=
  let month := Z.shiftr (n + 50) 5 in
  let preceding := days_before_month leap month in
  if n <? preceding
  then let month := month - 1 in (month, n - days_before_month leap month + 1)
  else (month, n - preceding + 1).

(** The inverse of [ymd2ord], by cycles of 400, 100, 4 and 1 years. *)
Definition ord2ymd (n : Z) : Z * Z * Z :=
  let n := n - 1 in
  let n400 := n / 146097 in
  let n := n mod 146097 in
  let n100 := n / 36524 in
  let n := n mod 36524 in
  let n4 := n / 1461 in
  let n := n mod 1461 in
  let n1 := n / 365 in
  let n := n mod 365 in
  let year := n400 * 400 + 1 + n100 * 100 + n4 * 4 + n1 in
  if (n1 =? 4) || (n100 =? 4) then (year - 1, 12, 31)
  else
    let leapyear := (n1 =? 3) && (negb (n4 =? 24) || (n100 =? 3)) in
    let '(month, day) := month_day leapyear n in
    (year, month, day).

(** A naive (zone-less) [datetime]. *)
Record datetime : Type := mk_datetime {
  year : Z; month : Z; day : Z;
  hour : Z; minute : Z; second : Z
}.

(** Ordinal of 1970-01-01. *)
Definition epoch_ordinal : Z := 719163.

(** Seconds of local civil time since 1970-01-01T00:00:00. *)
Definition local_seconds (dt : datetime) : Z :=
  (ymd2ord (year dt) (month dt) (day dt) - epoch_ordinal) * 86400
  + hour dt * 3600 + minute dt * 60 + second dt.

Definition of_local_seconds (x : Z) : datetime :=
  let '(y, m, d) := ord2ymd (x / 86400 + epoch_ordinal) in
  let sod := x mod 86400 in
  mk_datetime y m d (sod / 3600) (sod mod 3600 / 60) (sod mod 60).

(** A well-formed civil date and time of day. *)
Definition valid_date (y m d : Z) : Prop :=
  1 <= m <= 12 /\ 1 <= d <= days_in_month y m.

Definition valid (dt : datetime) : Prop :=
  valid_date (year dt) (month dt) (day dt)
  /\ 0 <= hour dt < 24 /\ 0 <= minute dt < 60 /\ 0 <= second dt < 60.

(** The check of [month_day] on one day of the year. *)
Definition month_day_ok (leap : bool) (n : Z) : bool :=
  let '(m, d) := month_day leap n in
  (1 <=? m) && (m <=? 12) && (1 <=? d)
  && (d <=? nth (Z.to_nat m) [0; 31; 28; 31; 30; 31; 30; 31; 31; 30; 31; 30; 31] 0
            + (if (m =? 2) && leap then 1 else 0))
  && (days_before_month leap m + d =? n + 1).

Section LocalZone.

(** Offset of the host's local zone, in seconds east of UTC. *)
Variable tz : Z.

(** [datetime.fromtimestamp(ts)] *)
Definition fromtimestamp (ts : Z) : datetime := of_local_seconds (ts + tz).

(** [dt.timestamp()] *)
Definition timestamp (dt : datetime) : Z := local_seconds dt - tz.

End LocalZone.

(** [dt + timedelta(seconds=s)] *)
Definition add_timedelta (dt : datetime) (s : Z) : datetime :=
  of_local_seconds (local_seconds dt + s).

(** [dt + relativedelta(years=years, months=months)], as dateutil
    computes it: the month is carried over the year end, and the day is
    clipped to the length of the month reached. *)
Definition add_relativedelta (dt : datetime) (years months : Z) : datetime :=
  let y := year dt + years in
  let m := month dt in
  let '(y, m) :=
    if months =? 0 then (y, m)
    else
      let m := m + months in
      if 12 <? m then (y + 1, m - 12)
      else if m <? 1 then (y - 1, m + 12)
      else (y, m) in
  let d := Z.min (days_in_month y m) (day dt) in
  mk_datetime y m d (hour dt) (minute dt) (second dt).

End Cal.

(** [dt + period_delta] *)
Definition datetime_add (dt : Cal.datetime) (d : delta) : Cal.datetime :=
  match d with
  | Fixed s => Cal.add_timedelta dt s
  | Calendar y m => Cal.add_relativedelta dt y m
  end.


(** ** Items *)

(** Modelled from the spec: [const.py], which declares [TodoItemStatus], is
    not among the sources; the data model gives the enumeration
    {NEEDS_ACTION, COMPLETED}. *)
Inductive TodoItemStatus : Type := NEEDS_ACTION | COMPLETED.

Global Instance TodoItemStatus_eq_dec : EqDecision TodoItemStatus.
Proof. solve_decision. Defined.

Record TodoItem : Type := mk_TodoItem {
  uid : option string;
  summary : string;
  status : TodoItemStatus;
  due_date : option string;
  due_datetime : option Z;
  description : option string;
  requiring : option bool;
  period : option string
}.

Global Instance TodoItem_eq_dec : EqDecision TodoItem.
Proof. solve_decision. Defined.

Definition with_uid (item : TodoItem) (u : option string) : TodoItem :=
  mk_TodoItem u (summary item) (status item) (due_date item)
    (due_datetime item) (description item) (requiring item) (period item).

(** The JSON object of one item.  For every key read with [data.get(k)] a
    missing key and [null] both read as [None]; [j_summary = None] is a
    missing ["summary"] key and [j_status = None] a missing ["status"]. *)
Record item_dict : Type := mk_item_dict {
  j_uid : option string;
  j_summary : option string;
  j_status : option TodoItemStatus;
  j_due_date : option string;
  j_due_datetime : option Z;
  j_description : option string;
  j_requiring : option bool;
  j_period : option string
}.

Definition to_dict (item : TodoItem) : item_dict :=
  mk_item_dict (uid item) (Some (summary item)) (Some (status item))
    (due_date item) (due_datetime item) (description item)
    (requiring item) (period item).

(** [TodoItem.from_dict]: [None] stands for the [KeyError] of
    [data["summary"]]. *)
Definition from_dict (data : item_dict) : option TodoItem :=
  match j_summary data with
  | None => None
  | Some summary =>
      Some (mk_TodoItem (j_uid data) summary
              (default NEEDS_ACTION (j_status data))
              (j_due_date data) (j_due_datetime data) (j_description data)
              (j_requiring data) (j_period data))
  end.

(** ** Ordering: [list.sort(key=...)] on the due instant *)

(** The sort key [float(due_datetime)], or [float('inf')] when there is
    none: [None] is the largest key. *)
Definition sort_key (item : TodoItem) : option Z := due_datetime item.

Definition key_leb (a b : option Z) : bool :=
  match a, b with
  | Some x, Some y => x <=? y
  | _, None => true
  | None, Some _ => false
  end.

Definition key_le (a b : TodoItem) : Prop := key_leb (sort_key a) (sort_key b) = true.

(** A stable ascending sort: an item goes in front of the first item that
    is not smaller, so an item stays ahead of the equal items that followed
    it. *)
Fixpoint insert_by_due (x : TodoItem) (l : list TodoItem) : list TodoItem :=
  match l with
  | [] => [x]
  | y :: l' =>
      if key_leb (sort_key x) (sort_key y) then x :: y :: l'
      else y :: insert_by_due x l'
  end.

Fixpoint sort_by_due (l : list TodoItem) : list TodoItem :=
  match l with
  | [] => []
  | x :: l' => insert_by_due x (sort_by_due l')
  end.

(** ** The list entity *)

Inductive json_value : Type :=
| JDict (display_name : option string) (todo_items : option (list item_dict))
| JList (items : list item_dict).

(** What the storage path holds: JSON text, or text [json.load] rejects. *)
Inductive file_content : Type :=
| Json (data : json_value)
| Malformed.

(** A subscriber callback, by identity. *)
Definition listener := nat.

Inductive event : Type :=
| FileReplaced (data : json_value)                  (* os.replace(tmp, path) *)
| StateWritten                                      (* async_write_ha_state() *)
| Notified (l : listener) (items : list TodoItem).  (* listener(self._todo_items) *)

Record MyTodoList : Type := mk_MyTodoList {
  _name : string;
  _display_name : string;
  _todo_items : list TodoItem;
  _listeners : list listener;
  storage : option file_content;     (* the file at _storage_path *)
  trace : list event                  (* effects so far, oldest first *)
}.

Definition with_items (s : MyTodoList) (items : list TodoItem) : MyTodoList :=
  mk_MyTodoList (_name s) (_display_name s) items (_listeners s) (storage s) (trace s).

Definition with_display_name (s : MyTodoList) (n : string) : MyTodoList :=
  mk_MyTodoList (_name s) n (_todo_items s) (_listeners s) (storage s) (trace s).

Definition emit (s : MyTodoList) (evs : list event) : MyTodoList :=
  mk_MyTodoList (_name s) (_display_name s) (_todo_items s) (_listeners s)
    (storage s) (trace s ++ evs).

Definition write_file (s : MyTodoList) (data : json_value) : MyTodoList :=
  mk_MyTodoList (_name s) (_display_name s) (_todo_items s) (_listeners s)
    (Some (Json data)) (trace s ++ [FileReplaced data]).

Definition with_storage (s : MyTodoList) (file : option file_content) : MyTodoList :=
  mk_MyTodoList (_name s) (_display_name s) (_todo_items s) (_listeners s) file (trace s).

(** [MyTodoList(name)], before anything is loaded. *)
Definition new_list (name display_name : string) (file : option file_content) : MyTodoList :=
  mk_MyTodoList name display_name [] [] file [].

Inductive exn : Type :=
| ValueError (msg : string)
| IndexError.

Inductive outcome : Type :=
| Done (s : MyTodoList)
| Raised (e : exn) (s : MyTodoList).

(** The entity as the call leaves it. *)
Definition after (r : outcome) : MyTodoList :=
  match r with Done s => s | Raised _ s => s end.

Definition async_update_listeners (s : MyTodoList) : MyTodoList :=
  emit s (map (fun l => Notified l (_todo_items s)) (_listeners s)).

Definition async_subscribe_updates (l : listener) (s : MyTodoList) : MyTodoList :=
  let s := mk_MyTodoList (_name s) (_display_name s) (_todo_items s)
             (_listeners s ++ [l]) (storage s) (trace s) in
  emit s [Notified l (_todo_items s)].

Definition _save_and_refresh (s : MyTodoList) : MyTodoList :=
  let s := with_items s (sort_by_due (_todo_items s)) in
  let data := JDict (Some (_display_name s)) (Some (map to_dict (_todo_items s))) in
  let s := write_file s data in
  let s := emit s [StateWritten] in
  async_update_listeners s.

Definition async_load_items (s : MyTodoList) : MyTodoList :=
  match storage s with
  | None => with_items s []
  | Some Malformed => s
  | Some (Json data) =>
      let '(s, items_list) :=
        match data with
        | JDict stored_display_name items =>
            (if Text.truthy stored_display_name
             then emit (with_display_name s (default EmptyString stored_display_name))
                       [StateWritten]
             else s,
             default [] items)
        | JList items => (s, items)
        end in
      match mapM from_dict items_list with
      | Some items => with_items s (sort_by_due items)
      | None => s
      end
  end.

(** ** Mutating operations *)

(** [uuid.uuid4()] is a source of randomness: the identifier it returns is
    an input [fresh] of the operation that calls it. *)
Definition async_create_todo_item (fresh : string) (item : TodoItem)
    (s : MyTodoList) : MyTodoList :=
  match list_find (fun existing_item => summary existing_item = summary item)
                  (_todo_items s) with
  | Some (idx, existing_item) =>
      let updated_uid := uid existing_item in
      let item := with_uid item updated_uid in
      _save_and_refresh (with_items s (<[idx := item]> (_todo_items s)))
  | None =>
      let item := if negb (Text.truthy (uid item))
                  then with_uid item (Some fresh) else item in
      _save_and_refresh (with_items s (_todo_items s ++ [item]))
  end.

(** The test of the loop of [async_update_todo_item]. *)
Definition update_target (updated_item item : TodoItem) : Prop :=
  (Text.truthy (uid updated_item) = true ∧ uid item = uid updated_item)
  ∨ (Text.truthy (uid updated_item) = false ∧ summary item = summary updated_item).

Global Instance update_target_dec u i : Decision (update_target u i).
Proof. unfold update_target. apply _. Defined.

Definition async_update_todo_item (updated_item : TodoItem)
    (s : MyTodoList) : MyTodoList :=
  match list_find (update_target updated_item) (_todo_items s) with
  | Some (idx, _) =>
      _save_and_refresh (with_items s (<[idx := updated_item]> (_todo_items s)))
  | None => s
  end.

Definition async_delete_todo_items (uids : list string) (s : MyTodoList) : MyTodoList :=
  _save_and_refresh
    (with_items s (filter (fun item => uid item ∉ (Some <$> uids)) (_todo_items s))).

(** [{item.uid: idx for idx, item in enumerate(items)}]: a later item with
    the same uid overwrites the entry of an earlier one. *)
Definition index_map (items : list TodoItem) : gmap (option string) nat :=
  foldl (fun m p => <[uid p.2 := p.1]> m) ∅ (imap pair items).

(** [l.insert(i, x)]: an index past the end appends. *)
Definition list_insert_at {A} (i : nat) (x : A) (l : list A) : list A :=
  take i l ++ x :: drop i l.

Definition async_move_todo_item (uid : string) (previous_uid : option string)
    (s : MyTodoList) : outcome :=
  let index_map := index_map (_todo_items s) in
  match index_map !! Some uid with
  | None => Raised (ValueError "UID not found") s
  | Some i =>
      match _todo_items s !! i with
      | None => Raised IndexError s
      | Some item =>
          (* item = self._todo_items.pop(index_map[uid]) *)
          let s := with_items s (delete i (_todo_items s)) in
          if Text.truthy previous_uid then
            match index_map !! previous_uid with
            | None => Raised (ValueError "Previous UID not found") s
            | Some prev_index =>
                let prev_index :=
                  if (i <? prev_index)%nat then (prev_index - 1)%nat else prev_index in
                Done (_save_and_refresh
                        (with_items s (list_insert_at (prev_index + 1) item (_todo_items s))))
            end
          else
            Done (_save_and_refresh (with_items s (list_insert_at 0 item (_todo_items s))))
      end
  end.

(** ** The recurrence engine *)

(** Python truthiness of the numeric due instant: [None] and [0] are falsy. *)
Definition due_truthy (d : option Z) : bool :=
  match d with Some t => negb (t =? 0) | None => false end.

Definition requiring_truthy (r : option bool) : bool :=
  match r with Some b => b | None => false end.

Section Recurrence.

Variable tz : Z.    (* the local zone *)
Variable now : Z.   (* the clock when the scan starts: datetime.now() *)

Definition _parse_datetime (value : option Z) : option Cal.datetime :=
  if negb (due_truthy value) then None
  else match value with
       | Some timestamp => Some (Cal.fromtimestamp tz timestamp)
       | None => None
       end.

(** The body of the loop for one item: the item as the body leaves it, and
    whether it set [updated]. *)
Definition reschedule_item (item : TodoItem) : TodoItem * bool :=
  if negb (requiring_truthy (requiring item)) || negb (Text.truthy (period item))
  then (item, false)
  else
    match _parse_period (period item) with
    | None => (item, false)
    | Some period_delta =>
        if negb (delta_truthy period_delta) then (item, false)
        else
          (* computed by the source and not used afterwards *)
          let old_due := _parse_datetime (due_datetime item) in
          if decide (status item = COMPLETED) then
            let new_due :=
              match due_datetime item with
              | Some t =>
                  if due_truthy (Some t)      (* if item.due_datetime: *)
                  then datetime_add (Cal.fromtimestamp tz t) period_delta
                  else datetime_add (Cal.fromtimestamp tz now) period_delta
              | None => datetime_add (Cal.fromtimestamp tz now) period_delta
              end in
            (mk_TodoItem (uid item) (summary item) NEEDS_ACTION (due_date item)
               (Some (Cal.timestamp tz new_due)) (description item)
               (requiring item) (period item),
             true)
          else (item, false)
    end.

(** The loop: items are changed in place, [updated] accumulates. *)
Fixpoint reschedule_loop (items : list TodoItem) (updated : bool)
    : list TodoItem * bool :=
  match items with
  | [] => ([], updated)
  | item :: rest =>
      let '(item', changed) := reschedule_item item in
      let '(rest', updated') := reschedule_loop rest (updated || changed) in
      (item' :: rest', updated')
  end.

Definition async_update_requiring_items (s : MyTodoList) : MyTodoList :=
  let '(items, updated) := reschedule_loop (_todo_items s) false in
  let s := with_items s items in
  if updated then _save_and_refresh s else s.

End Recurrence.

(** ** Sequences of operations *)

Inductive op : Type :=
| Create (fresh : string) (item : TodoItem)
| Update (item : TodoItem)
| Delete (uids : list string)
| Move (uid : string) (previous_uid : option string)
| Reschedule (now : Z).

Definition step (tz : Z) (o : op) (s : MyTodoList) : outcome :=
  match o with
  | Create fresh item => Done (async_create_todo_item fresh item s)
  | Update item => Done (async_update_todo_item item s)
  | Delete uids => Done (async_delete_todo_items uids s)
  | Move uid previous_uid => async_move_todo_item uid previous_uid s
  | Reschedule now => Done (async_update_requiring_items tz now s)
  end.

(** The states the entity goes through: one per operation, in order.  A
    call that raises leaves the entity as it was when the error was
    raised, and the next call starts from there. *)
Fixpoint run (tz : Z) (ops : list op) (s : MyTodoList) : list MyTodoList :=
  match ops with
  | [] => []
  | o :: ops' => let s' := after (step tz o s) in s' :: run tz ops' s'
  end.

(** Reading the file back into a fresh entity of the same name. *)
Definition read_back (s : MyTodoList) : list TodoItem :=
  _todo_items (async_load_items (new_list (_name s) (_display_name s) (storage s))).


(** ** Period tokens *)

(** The count and the unit of a period token, read off a match. *)
Definition period_token (s num unit : string) : Prop :=
  s = num +:+ unit /\ Re.matches (Re.Plus Re.Digit) num /\ Re.matches Re.unit_re unit.

(** The offset the parser builds from a count and a unit word. *)
Definition offset_of (n : Z) (unit : string) : delta :=
  if String.eqb unit "minute" then timedelta_minutes n
  else if String.eqb unit "hour" then timedelta_hours n
  else if String.eqb unit "day" then timedelta_days n
  else if String.eqb unit "week" then timedelta_weeks n
  else if String.eqb unit "month" then relativedelta_months n
  else relativedelta_years n.

(** The claim of the specification: a duration is produced exactly for the
    tokens with a strictly positive count. *)
Definition positive_period_token (s : string) : Prop :=
  exists num unit, period_token s num unit /\ 0 < Text.int num.


(** ** Vocabulary of the specification *)

(** Following the spec's words, "add N months preserving the day-of-month
    where possible": the month is advanced by [n] on the calendar and the
    day is clipped to the length of the month reached; the time of day is
    kept. *)
Definition plus_months (dt : Cal.datetime) (n : Z) : Cal.datetime :=
  let idx := Cal.year dt * 12 + (Cal.month dt - 1) + n in
  let y := idx / 12 in
  let m := idx mod 12 + 1 in
  Cal.mk_datetime y m (Z.min (Cal.day dt) (Cal.days_in_month y m))
    (Cal.hour dt) (Cal.minute dt) (Cal.second dt).

(** Following the spec's words, "instant + parsed offset": a fixed-length
    duration adds its seconds; a calendar offset adds its months to the
    local civil time of the instant. *)
Definition plus_offset (tz : Z) (t : Z) (d : delta) : Z :=
  match d with
  | Fixed s => t + s
  | Calendar y m => Cal.timestamp tz (plus_months (Cal.fromtimestamp tz t) (12 * y + m))
  end.

(** Following the spec's words: the item is requiring, its period parses
    successfully (a token with a strictly positive count), and it is
    COMPLETED.  [recurring_offset] is the parsed offset of such an item;
    the token is read with [Re.fullmatch_period], which decides the pattern
    (see [ReFacts.fullmatch_period_iff]). *)
Definition recurring_offset (item : TodoItem) : option delta :=
  match requiring item, period item with
  | Some true, Some p =>
      match Re.fullmatch_period p with
      | Some (num, unit) =>
          if 0 <? Text.int num then Some (offset_of (Text.int num) unit) else None
      | None => None
      end
  | _, _ => None
  end.

Definition due_to_reschedule (item : TodoItem) : option delta :=
  if decide (status item = COMPLETED) then recurring_offset item else None.

(** Following the spec's words: status back to NEEDS_ACTION, and the due
    instant moved from the old one if there was one, else from the clock. *)
Definition rescheduled (tz now : Z) (item : TodoItem) (d : delta) : TodoItem :=
  mk_TodoItem (uid item) (summary item) NEEDS_ACTION (due_date item)
    (Some (plus_offset tz (default now (due_datetime item)) d))
    (description item) (requiring item) (period item).

(** The offsets the parser builds keep the months of a calendar offset
    below a dozen. *)
Definition normalised (d : delta) : Prop :=
  match d with Fixed _ => True | Calendar _ m => 0 <= m < 12 end.

(** The item as the loop body leaves it when it reschedules: the base of
    the new due instant is the old due instant when that is truthy. *)
Definition code_base (now : Z) (item : TodoItem) : Z :=
  match due_datetime item with
  | Some t => if due_truthy (Some t) then t else now
  | None => now
  end.


(** The list is in canonical order: ascending due instant, items without
    one last. *)
Definition sorted_by_due (l : list TodoItem) : Prop := StronglySorted key_le l.

(** The items with a given sort key, in the order they have in [l]. *)
Definition with_key (k : option Z) (l : list TodoItem) : list TodoItem :=
  filter (fun item => sort_key item = k) l.

(** The ids of the items, in list order. *)
Definition ids (s : MyTodoList) : list (option string) := uid <$> _todo_items s.

(** An operation that cannot bring an id into the list twice: a create that
    appends does so under an id the list does not hold yet, and an update
    names its target by a non-empty uid. *)
Definition keeps_ids (o : op) (s : MyTodoList) : Prop :=
  match o with
  | Create fresh item =>
      (exists existing, existing ∈ _todo_items s /\ summary existing = summary item)
      \/ (if Text.truthy (uid item) then uid item else Some fresh) ∉ ids s
  | Update item => Text.truthy (uid item) = true
  | _ => True
  end.

Fixpoint run_keeps_ids (tz : Z) (ops : list op) (s : MyTodoList) : Prop :=
  match ops with
  | [] => True
  | o :: ops' => keeps_ids o s /\ run_keeps_ids tz ops' (after (step tz o s))
  end.

(** ** Sample data *)

Module Sample.

Definition milk : TodoItem :=
  mk_TodoItem (Some "a"%string) "milk" NEEDS_ACTION None (Some 100) None None None.

Definition bread : TodoItem :=
  mk_TodoItem (Some "b"%string) "bread" NEEDS_ACTION None None None None None.

(** An item a caller creates under an id of its own choosing. *)
Definition keyed : TodoItem :=
  mk_TodoItem (Some "mine"%string) "eggs" NEEDS_ACTION None None None None None.

(** A second item under the same id, with another summary. *)
Definition keyed_again : TodoItem :=
  mk_TodoItem (Some "mine"%string) "flour" NEEDS_ACTION None None None None None.

(** An item no list below holds. *)
Definition stranger : TodoItem :=
  mk_TodoItem (Some "zz"%string) "nothing" NEEDS_ACTION None None None None None.

(** A completed daily item whose due instant is the epoch itself. *)
Definition daily_at_epoch : TodoItem :=
  mk_TodoItem (Some "d"%string) "plants" COMPLETED None (Some 0) None
    (Some true) (Some "1day"%string).

(** A completed monthly item due 2023-01-31T12:00:00Z. *)
Definition monthly_jan31 : TodoItem :=
  mk_TodoItem (Some "m"%string) "rent" COMPLETED None (Some 1675166400) None
    (Some true) (Some "1month"%string).

Definition empty_list : MyTodoList := new_list "shopping" "Shopping" None.

(** A list of two items with one subscriber, as a save leaves it. *)
Definition two_items : MyTodoList :=
  _save_and_refresh
    (mk_MyTodoList "shopping" "Shopping" [milk; bread] [7%nat] None []).

(** [two_items] after bread was moved to the front: the save sorts it back. *)
Definition moved : MyTodoList :=
  _save_and_refresh (with_items two_items [bread; milk]).

End Sample.
(** ** The rest of the entity *)

(** [MyTodoList.validate_period] *)
Definition validate_period (value : option string) : option string :=
  match value with
  | None => None
  | Some s =>
      match Re.fullmatch_period s with
      | Some _ => Some s
      | None => None
      end
  end.

(** The sum of the [state] property: the items that still need action. *)
Definition needs_action_count (items : list TodoItem) : nat :=
  length (filter (fun item => status item = NEEDS_ACTION) items).

(** [MyTodoList.state]: the count, as [str] prints it. *)
Definition state (s : MyTodoList) : string :=
  NilZero.string_of_uint (Nat.to_uint (needs_action_count (_todo_items s))).

(** [MyTodoList.async_added_to_hass] *)
Definition async_added_to_hass (s : MyTodoList) : MyTodoList := async_load_items s.

(** [l.remove(x)]: the list without the first occurrence of [x]; [None]
    stands for the [ValueError] raised when there is none. *)
Fixpoint list_remove_first (x : listener) (l : list listener) : option (list listener) :=
  match l with
  | [] => None
  | y :: l' =>
      if decide (y = x) then Some l'
      else (fun r => y :: r) <$> list_remove_first x l'
  end.

(** [remove_listener], the handle [async_subscribe_updates] returns. *)
Definition remove_listener (l : listener) (s : MyTodoList) : outcome :=
  match list_remove_first l (_listeners s) with
  | Some ls =>
      Done (mk_MyTodoList (_name s) (_display_name s) (_todo_items s) ls
              (storage s) (trace s))
  | None => Raised (ValueError "list.remove(x): x not in list") s
  end.

(** What a subscriber was called with, oldest call first. *)
Definition delivered (l : listener) (tr : list event) : list (list TodoItem) :=
  omap (fun e => match e with
                 | Notified l' items => if decide (l' = l) then Some items else None
                 | _ => None
                 end) tr.

(** The fields of an item the recurrence scan has no assignment to. *)
Definition kept_fields (item : TodoItem)
    : option string * string * option string * option string * option bool
      * option string :=
  (uid item, summary item, due_date item, description item, requiring item, period item).

(** Seconds of one fixed-length unit. *)
Definition unit_seconds (unit : string) : Z :=
  if String.eqb unit "minute" then 60
  else if String.eqb unit "hour" then 3600
  else if String.eqb unit "day" then 86400
  else 604800.

(** ** The service handlers of [__init__.py] *)

Module Service.

(** A handler returns, or rejects the call with a [ServiceValidationError]
    naming the item; either way the entity is the one it leaves behind. *)
Inductive result : Type :=
| Served (s : MyTodoList)
| ServiceValidationError (item : string) (s : MyTodoList).

Definition entity_after (r : result) : MyTodoList :=
  match r with Served s => s | ServiceValidationError _ s => s end.

(** [item_name in (i.uid, i.summary)] *)
Definition named (item_name : string) (i : TodoItem) : Prop :=
  uid i = Some item_name \/ summary i = item_name.

Global Instance named_dec item_name i : Decision (named item_name i).
Proof. unfold named. apply _. Defined.

(** [next((i for i in current_items if item_name in (i.uid, i.summary)), None)] *)
Definition find_named (item_name : string) (items : list TodoItem) : option TodoItem :=
  snd <$> list_find (named item_name) items.

(** A name the handler rejects: no item answers to it, or the item that
    does has no usable uid. *)
Definition rejected (item_name : string) (items : list TodoItem) : Prop :=
  find_named item_name items = None
  \/ exists found, find_named item_name items = Some found
                   /\ Text.truthy (uid found) = false.

(** The loop of [_async_remove_todo_items]: the uids collected so far, or
    the name at which the handler raises. *)
Fixpoint collect_uids (names : list string) (items : list TodoItem) (uids : list string)
    : string + list string :=
  match names with
  | [] => inr uids
  | item_name :: names' =>
      match find_named item_name items with
      | None => inl item_name
      | Some found =>
          match uid found with
          | Some u =>
              if Text.nonempty u then collect_uids names' items (uids ++ [u])
              else inl item_name
          | None => inl item_name
          end
      end
  end.

Definition _async_remove_todo_items (names : list string) (s : MyTodoList) : result :=
  match collect_uids names (_todo_items s) [] with
  | inl item_name => ServiceValidationError item_name s
  | inr uids => Served (async_delete_todo_items uids s)
  end.

(** The uids [_async_remove_completed_items] collects. *)
Definition completed_uids (items : list TodoItem) : list string :=
  omap (fun item =>
          if decide (status item = COMPLETED)
          then match uid item with
               | Some u => if Text.nonempty u then Some u else None
               | None => None
               end
          else None) items.

Definition _async_remove_completed_items (s : MyTodoList) : MyTodoList :=
  match completed_uids (_todo_items s) with
  | [] => s
  | uids => async_delete_todo_items uids s
  end.

End Service.

(** ** The period parser of [intent.py] *)

Module Intent.

Definition newline : string := String "010" EmptyString.

(** [s] without its final newline, when it ends in one. *)
Fixpoint before_final_newline (s : string) : option string :=
  match s with
  | EmptyString => None
  | String c EmptyString => if Ascii.eqb c "010" then Some EmptyString else None
  | String c s' => String c <$> before_final_newline s'
  end.

(** [PERIOD_REGEX.match(s)]: the pattern is anchored with [^] and [$], and
    [$] also matches just before a newline that ends the string. *)
Definition match_period (s : string) : option (string * string) :=
  match Re.fullmatch_period s with
  | Some groups => Some groups
  | None =>
      match before_final_newline s with
      | Some s' => Re.fullmatch_period s'
      | None => None
      end
  end.

Definition parse_period (period_str : string) : option delta :=
  match match_period period_str with
  | None => None
  | Some (num, unit) =>
      let num := Text.int num in
      if String.eqb unit "minute" then Some (timedelta_minutes num)
      else if String.eqb unit "hour" then Some (timedelta_hours num)
      else if String.eqb unit "day" then Some (timedelta_days num)
      else if String.eqb unit "week" then Some (timedelta_weeks num)
      else if String.eqb unit "month" then Some (timedelta_days (30 * num))
      else if String.eqb unit "year" then Some (timedelta_days (365 * num))
      else None
  end.

End Intent.

(** The item objects of a payload, as [async_load_items] reads them. *)
Definition payload_items (data : json_value) : list item_dict :=
  match data with
  | JDict _ items => default [] items
  | JList items => items
  end.

(** ** More sample data *)

Module Fixture.

(** An item object without a ["summary"]. *)
Definition no_summary : item_dict :=
  mk_item_dict (Some "x"%string) None None None None None None None.

(** A legacy file with one good and one broken item object. *)
Definition broken_payload : json_value := JList [to_dict Sample.keyed; no_summary].

Definition with_broken_file : MyTodoList :=
  with_storage Sample.two_items (Some (Json broken_payload)).

(** A legacy file whose items are not in canonical order. *)
Definition legacy_payload : json_value := JList [to_dict Sample.bread; to_dict Sample.milk].

Definition with_legacy_file : MyTodoList :=
  with_storage Sample.empty_list (Some (Json legacy_payload)).

(** Three items without a due instant, as a save leaves them. *)
Definition flour : TodoItem :=
  mk_TodoItem (Some "f"%string) "flour" NEEDS_ACTION None None None None None.

Definition undated : MyTodoList :=
  _save_and_refresh
    (mk_MyTodoList "pantry" "Pantry" [Sample.bread; flour; Sample.keyed] [] None []).

(** [undated] after the item "mine" was moved to the front. *)
Definition undated_moved : MyTodoList :=
  _save_and_refresh (with_items undated [Sample.keyed; Sample.bread; flour]).

(** [undated] after the item "f" was moved behind the item "b": the order
    is the one it had, and the save still runs. *)
Definition undated_after : MyTodoList :=
  _save_and_refresh (with_items undated [Sample.bread; flour; Sample.keyed]).

(** A completed item due 2023-11-14T22:13:20Z that comes back every two weeks. *)
Definition weekly : TodoItem :=
  mk_TodoItem (Some "w"%string) "bins" COMPLETED None (Some 1700000000) None
    (Some true) (Some "2week"%string).

End Fixture.

(** * Properties *)

(** ** The period parser *)

Module ReFacts.
Import Re.

(** [\d+] is the language of non-empty digit strings. *)
Lemma plus_digit_iff (s : string) :
  matches (Plus Digit) s <-> Text.all_digits s = true /\ s <> EmptyString.
Proof.
  split.
  - intros H. remember (Plus Digit) as r eqn:Er.
    induction H as [| | | | |r s H _|r s1 s2 H1 _ H2 IH2]; try discriminate.
    + injection Er as ->. inversion H; subst. simpl.
      split; [by rewrite andb_true_r | discriminate].
    + injection Er as ->. inversion H1; subst. simpl.
      destruct (IH2 eq_refl) as [Hd _].
      split; [by apply andb_true_iff | discriminate].
  - intros [Hd Hne]. induction s as [|c s IH]; [done|].
    simpl in Hd. apply andb_true_iff in Hd as [Hc Hs].
    destruct s as [|c' s'].
    + apply m_plus_one. by constructor.
    + change (String c (String c' s')) with (String c EmptyString +:+ String c' s').
      apply m_plus_more; [by constructor|]. apply IH; [done | discriminate].
Qed.

Lemma unit_re_iff (u : string) : matches unit_re u <-> u ∈ unit_words.
Proof.
  unfold unit_re, unit_words. split.
  - intros H.
    repeat match goal with
           | H : matches (Alt _ _) _ |- _ => inversion H; subst; clear H
           | H : matches (Lit _) _ |- _ => inversion H; subst; clear H
           end; set_solver.
  - intros H. rewrite !elem_of_cons in H.
    destruct H as [->|[->|[->|[->|[->|[->|H]]]]]]; [..|by apply elem_of_nil in H];
      eauto 10 using matches.
Qed.

Lemma unit_words_letter (u : string) : u ∈ unit_words -> starts_with_letter u = true.
Proof.
  unfold unit_words. rewrite !elem_of_cons.
  intros [->|[->|[->|[->|[->|[->|H]]]]]]; [done..|by apply elem_of_nil in H].
Qed.

Lemma span_digits_app (num rest : string) :
  Text.all_digits num = true -> starts_with_letter rest = true ->
  span_digits (num +:+ rest) = (num, rest).
Proof.
  intros Hd Hr. induction num as [|c num IH]; simpl in *.
  - destruct rest as [|c r]; [done|]. simpl in *.
    by destruct (Text.is_digit c).
  - apply andb_true_iff in Hd as [-> Hd]. by rewrite IH.
Qed.

Lemma span_digits_split (s num rest : string) :
  span_digits s = (num, rest) -> s = num +:+ rest /\ Text.all_digits num = true.
Proof.
  revert num rest. induction s as [|c s IH]; simpl; intros num rest H.
  - by injection H as <- <-.
  - destruct (Text.is_digit c) eqn:Hc.
    + destruct (span_digits s) as [d r]. injection H as <- <-.
      destruct (IH d r eq_refl) as [-> Hd]. simpl. by rewrite Hc.
    + by injection H as <- <-.
Qed.

(** The two groups of a match are determined by the string. *)
Lemma fullmatch_period_iff (s num unit : string) :
  fullmatch_period s = Some (num, unit) <->
  s = num +:+ unit /\ matches (Plus Digit) num /\ matches unit_re unit.
Proof.
  unfold fullmatch_period. rewrite plus_digit_iff, unit_re_iff. split.
  - destruct (span_digits s) as [d r] eqn:Hs.
    apply span_digits_split in Hs as [-> Hd].
    destruct (Text.nonempty d) eqn:Hn; simpl; [|done].
    case_bool_decide; [|done]. intros [= <- <-].
    repeat split; try done. by destruct d.
  - intros (-> & [Hd Hne] & Hu).
    rewrite span_digits_app by auto using unit_words_letter.
    destruct num; [done|]. simpl. by rewrite bool_decide_eq_true_2.
Qed.

(** [fullmatch_period] decides the pattern. *)
Lemma fullmatch_period_matches (s : string) :
  is_Some (fullmatch_period s) <-> matches period_re s.
Proof.
  split.
  - intros [[num unit] H]. apply fullmatch_period_iff in H as (-> & H1 & H2).
    by constructor.
  - intros H. inversion H as [| |r1 r2 s1 s2 H1 H2| | | |]; subst.
    exists (s1, s2). by apply fullmatch_period_iff.
Qed.

Lemma int_acc_nonneg (s : string) (acc : Z) :
  Text.all_digits s = true -> 0 <= acc -> acc <= Text.int_acc acc s.
Proof.
  revert acc. induction s as [|c s IH]; simpl; intros acc Hd Hacc; [lia|].
  apply andb_true_iff in Hd as [Hc Hd].
  assert (0 <= Text.digit_value c).
  { unfold Text.is_digit, Text.digit_value in *.
    apply andb_true_iff in Hc as [Hc _]. apply Nat.leb_le in Hc. lia. }
  specialize (IH (10 * acc + Text.digit_value c) Hd). lia.
Qed.

Lemma int_nonneg (s : string) : Text.all_digits s = true -> 0 <= Text.int s.
Proof. intros Hd. by apply (int_acc_nonneg s 0). Qed.

End ReFacts.

Lemma parse_period_token (s num unit : string) :
  period_token s num unit ->
  _parse_period (Some s) = Some (offset_of (Text.int num) unit).
Proof.
  intros H. pose proof H as (-> & Hn & Hu).
  apply ReFacts.fullmatch_period_iff in H.
  unfold _parse_period. simpl.
  apply ReFacts.plus_digit_iff in Hn as [_ Hne].
  replace (Text.nonempty (num +:+ unit)) with true by (by destruct num).
  simpl. rewrite H. unfold offset_of.
  apply ReFacts.unit_re_iff in Hu. unfold Re.unit_words in Hu.
  rewrite !elem_of_cons in Hu.
  destruct Hu as [->|[->|[->|[->|[->|[->|Hu]]]]]]; [done..|by apply elem_of_nil in Hu].
Qed.

Lemma parse_period_Some (s : string) (d : delta) :
  _parse_period (Some s) = Some d ->
  exists num unit, period_token s num unit /\ d = offset_of (Text.int num) unit.
Proof.
  unfold _parse_period. simpl.
  destruct (Text.nonempty s); simpl; [|done].
  destruct (Re.fullmatch_period s) as [[num unit]|] eqn:Hm; [|done].
  intros H. apply ReFacts.fullmatch_period_iff in Hm.
  exists num, unit. split; [done|].
  pose proof (parse_period_token _ _ _ Hm) as Hp.
  destruct Hm as (_ & _ & Hu).
  apply ReFacts.unit_re_iff in Hu. unfold Re.unit_words in Hu.
  rewrite !elem_of_cons in Hu. unfold offset_of.
  destruct Hu as [->|[->|[->|[->|[->|[->|Hu]]]]]];
    [simpl in H; by injection H as <-..|by apply elem_of_nil in Hu].
Qed.

(** An offset is truthy exactly when its count is positive. *)
Lemma offset_truthy (n : Z) (unit : string) :
  0 <= n -> delta_truthy (offset_of n unit) = (0 <? n).
Proof.
  intros Hn. destruct (Z.ltb_spec 0 n) as [Hpos|Hzero].
  - unfold offset_of.
    repeat match goal with
           | |- context [String.eqb ?a ?b] => destruct (String.eqb a b)
           end; simpl; apply negb_true_iff.
    1-4: apply Z.eqb_neq; lia.
    + apply andb_false_iff.
      destruct (Z.eq_dec (n / 12) 0) as [E|E]; [right|left; by apply Z.eqb_neq].
      apply Z.eqb_neq. pose proof (Z.div_mod n 12). lia.
    + apply andb_false_iff. left. apply Z.eqb_neq. lia.
  - assert (n = 0) as -> by lia. unfold offset_of.
    by repeat match goal with
              | |- context [String.eqb ?a ?b] => destruct (String.eqb a b)
              end.
Qed.



(** ** Civil time *)

Module CalFacts.
Import Cal.

(** A check over an initial segment of the integers, by enumeration. *)
Lemma forallb_below (f : Z -> bool) (k : nat) :
  forallb f (map Z.of_nat (seq 0 k)) = true ->
  forall n, 0 <= n < Z.of_nat k -> f n = true.
Proof.
  intros H n Hn. rewrite forallb_forall in H. apply H.
  apply in_map_iff. exists (Z.to_nat n). split; [lia|].
  apply in_seq. lia.
Qed.

Lemma month_day_spec (leap : bool) (n : Z) :
  0 <= n < 365 -> month_day_ok leap n = true.
Proof.
  intros Hn. destruct leap.
  - apply (forallb_below (month_day_ok true) 365); [by vm_compute | lia].
  - apply (forallb_below (month_day_ok false) 365); [by vm_compute | lia].
Qed.

Lemma days_before_next_year (y : Z) :
  days_before_year (y + 1) = days_before_year y + 365 + (if is_leap y then 1 else 0).
Proof.
  unfold days_before_year, is_leap.
  replace (y + 1 - 1) with y by lia.
  destruct (y mod 4 =? 0) eqn:E4; destruct (y mod 100 =? 0) eqn:E100;
    destruct (y mod 400 =? 0) eqn:E400; simpl;
    rewrite ?Z.eqb_eq, ?Z.eqb_neq in *;
    Z.to_euclidean_division_equations; lia.
Qed.

Lemma ymd2ord_ord2ymd (n : Z) :
  let '(y, m, d) := ord2ymd n in ymd2ord y m d = n.
Proof.
  unfold ord2ymd.
  set (n0 := n - 1).
  set (a := n0 / 146097). set (r1 := n0 mod 146097).
  set (b := r1 / 36524). set (r2 := r1 mod 36524).
  set (c := r2 / 1461). set (r3 := r2 mod 1461).
  set (e := r3 / 365). set (r4 := r3 mod 365).
  assert (Hn0 : n0 = 146097 * a + r1 /\ 0 <= r1 < 146097)
    by (subst a r1; Z.to_euclidean_division_equations; lia).
  assert (Hr1 : r1 = 36524 * b + r2 /\ 0 <= r2 < 36524)
    by (subst b r2; Z.to_euclidean_division_equations; lia).
  assert (Hr2 : r2 = 1461 * c + r3 /\ 0 <= r3 < 1461)
    by (subst c r3; Z.to_euclidean_division_equations; lia).
  assert (Hr3 : r3 = 365 * e + r4 /\ 0 <= r4 < 365)
    by (subst e r4; Z.to_euclidean_division_equations; lia).
  clearbody a r1 b r2 c r3 e r4.
  assert (Hb : 0 <= b <= 4) by lia.
  assert (Hc : 0 <= c <= 24) by lia.
  assert (He : 0 <= e <= 4) by lia.
  destruct ((e =? 4) || (b =? 4)) eqn:Hspecial.
  - apply orb_true_iff in Hspecial. rewrite !Z.eqb_eq in Hspecial.
    unfold ymd2ord, days_before_month. simpl nth. simpl (2 <? 12).
    rewrite andb_true_l.
    pose proof (days_before_next_year (a * 400 + 1 + b * 100 + c * 4 + e - 1)) as Hnext.
    replace (a * 400 + 1 + b * 100 + c * 4 + e - 1 + 1)
      with (a * 400 + 1 + b * 100 + c * 4 + e) in Hnext by lia.
    assert (Hd : days_before_year (a * 400 + 1 + b * 100 + c * 4 + e) = n0 + 1).
    { unfold days_before_year. Z.to_euclidean_division_equations. lia. }
    destruct (is_leap _); lia.
  - apply orb_false_iff in Hspecial as [He4 Hb4]. rewrite Z.eqb_neq in He4, Hb4.
    pose proof (month_day_spec ((e =? 3) && (negb (c =? 24) || (b =? 3))) r4
                  ltac:(lia)) as Hmd.
    unfold month_day_ok in Hmd.
    destruct (month_day _ r4) as [m d].
    rewrite !andb_true_iff in Hmd. destruct Hmd as [_ Hmd].
    apply Z.eqb_eq in Hmd.
    unfold ymd2ord.
    assert (Hleap : is_leap (a * 400 + 1 + b * 100 + c * 4 + e)
                    = (e =? 3) && (negb (c =? 24) || (b =? 3))).
    { unfold is_leap.
      destruct (e =? 3) eqn:E3; destruct (c =? 24) eqn:E24; destruct (b =? 3) eqn:Eb3;
        simpl; rewrite ?Z.eqb_eq, ?Z.eqb_neq in *;
        repeat match goal with
               | |- context [?x mod ?k =? 0] =>
                   let E := fresh "E" in
                   destruct (x mod k =? 0) eqn:E;
                   [apply Z.eqb_eq in E | apply Z.eqb_neq in E]
               end; simpl; try reflexivity;
        exfalso; Z.to_euclidean_division_equations; lia. }
    rewrite Hleap.
    assert (Hd : days_before_year (a * 400 + 1 + b * 100 + c * 4 + e) = n0 - r4).
    { unfold days_before_year. Z.to_euclidean_division_equations. lia. }
    lia.
Qed.

Ltac month_cases m :=
  let H := fresh in
  assert (H : m = 1 \/ m = 2 \/ m = 3 \/ m = 4 \/ m = 5 \/ m = 6 \/ m = 7
              \/ m = 8 \/ m = 9 \/ m = 10 \/ m = 11 \/ m = 12) by lia;
  destruct H as [->|[->|[->|[->|[->|[->|[->|[->|[->|[->|[->| ->]]]]]]]]]]].

Lemma days_in_month_table (y m : Z) :
  1 <= m <= 12 ->
  days_in_month y m
  = nth (Z.to_nat m) [0; 31; 28; 31; 30; 31; 30; 31; 31; 30; 31; 30; 31] 0
    + (if (m =? 2) && is_leap y then 1 else 0).
Proof.
  intros Hm. unfold days_in_month. month_cases m; simpl; try reflexivity.
  by destruct (is_leap y).
Qed.

Lemma days_in_month_bounds (y m : Z) : 28 <= days_in_month y m <= 31.
Proof.
  unfold days_in_month.
  repeat match goal with |- context [if ?b then _ else _] => destruct b end; lia.
Qed.

Lemma ord2ymd_valid (n : Z) :
  let '(y, m, d) := ord2ymd n in valid_date y m d.
Proof.
  unfold ord2ymd.
  set (n0 := n - 1).
  set (a := n0 / 146097). set (r1 := n0 mod 146097).
  set (b := r1 / 36524). set (r2 := r1 mod 36524).
  set (c := r2 / 1461). set (r3 := r2 mod 1461).
  set (e := r3 / 365). set (r4 := r3 mod 365).
  assert (Hr1 : 0 <= r1 < 146097) by (subst r1; Z.to_euclidean_division_equations; lia).
  assert (Hr2 : r1 = 36524 * b + r2 /\ 0 <= r2 < 36524)
    by (subst b r2; Z.to_euclidean_division_equations; lia).
  assert (Hr3 : r2 = 1461 * c + r3 /\ 0 <= r3 < 1461)
    by (subst c r3; Z.to_euclidean_division_equations; lia).
  assert (Hr4 : r3 = 365 * e + r4 /\ 0 <= r4 < 365)
    by (subst e r4; Z.to_euclidean_division_equations; lia).
  clearbody a r1 b r2 c r3 e r4.
  destruct ((e =? 4) || (b =? 4)) eqn:Hspecial.
  - split; [lia|]. unfold days_in_month. simpl. lia.
  - apply orb_false_iff in Hspecial as [He4 Hb4]. rewrite Z.eqb_neq in He4, Hb4.
    set (leap := (e =? 3) && (negb (c =? 24) || (b =? 3))).
    assert (Hleap : is_leap (a * 400 + 1 + b * 100 + c * 4 + e) = leap).
    { subst leap. unfold is_leap.
      destruct (e =? 3) eqn:E3; destruct (c =? 24) eqn:E24; destruct (b =? 3) eqn:Eb3;
        simpl; rewrite ?Z.eqb_eq, ?Z.eqb_neq in *;
        repeat match goal with
               | |- context [?x mod ?k =? 0] =>
                   let E := fresh "E" in
                   destruct (x mod k =? 0) eqn:E;
                   [apply Z.eqb_eq in E | apply Z.eqb_neq in E]
               end; simpl; try reflexivity;
        exfalso; Z.to_euclidean_division_equations; lia. }
    pose proof (month_day_spec leap r4 ltac:(lia)) as Hmd.
    unfold month_day_ok in Hmd.
    destruct (month_day leap r4) as [m d].
    rewrite !andb_true_iff in Hmd.
    destruct Hmd as [[[[H1 H2] H3] H4] _].
    apply Z.leb_le in H1, H2, H3, H4.
    split; [lia|]. rewrite days_in_month_table by lia. rewrite Hleap. lia.
Qed.

Lemma days_before_year_mono (y y' : Z) :
  y <= y' -> days_before_year y <= days_before_year y'.
Proof.
  intros H. unfold days_before_year. Z.to_euclidean_division_equations. lia.
Qed.

Lemma day_of_year_bounds (y m d : Z) :
  valid_date y m d ->
  1 <= days_before_month (is_leap y) m + d <= 365 + (if is_leap y then 1 else 0).
Proof.
  intros [Hm Hd]. rewrite days_in_month_table in Hd by done.
  unfold days_before_month.
  month_cases m; simpl in *; destruct (is_leap y); simpl in *; lia.
Qed.

Lemma day_of_year_inj (leap : bool) (y m d m' d' : Z) :
  is_leap y = leap -> valid_date y m d -> valid_date y m' d' ->
  days_before_month leap m + d = days_before_month leap m' + d' ->
  m = m' /\ d = d'.
Proof.
  intros Hl [Hm Hd] [Hm' Hd'].
  rewrite days_in_month_table in Hd, Hd' by done. rewrite Hl in *.
  unfold days_before_month.
  month_cases m; month_cases m'; simpl in *; destruct leap; simpl in *; lia.
Qed.

Lemma ymd2ord_inj (y m d y' m' d' : Z) :
  valid_date y m d -> valid_date y' m' d' ->
  ymd2ord y m d = ymd2ord y' m' d' -> y = y' /\ m = m' /\ d = d'.
Proof.
  intros Hv Hv' Heq. unfold ymd2ord in Heq.
  pose proof (day_of_year_bounds _ _ _ Hv) as Hb.
  pose proof (day_of_year_bounds _ _ _ Hv') as Hb'.
  pose proof (days_before_next_year y) as Hn.
  pose proof (days_before_next_year y') as Hn'.
  assert (y = y') as <-.
  { destruct (Z.lt_trichotomy y y') as [Hlt|[E|Hgt]]; [|done|].
    - pose proof (days_before_year_mono (y + 1) y' ltac:(lia)). lia.
    - pose proof (days_before_year_mono (y' + 1) y ltac:(lia)). lia. }
  split; [done|].
  eapply (day_of_year_inj (is_leap y) y); eauto. lia.
Qed.

Lemma ord2ymd_ymd2ord (y m d : Z) :
  valid_date y m d -> ord2ymd (ymd2ord y m d) = (y, m, d).
Proof.
  intros Hv.
  pose proof (ymd2ord_ord2ymd (ymd2ord y m d)) as H1.
  pose proof (ord2ymd_valid (ymd2ord y m d)) as H2.
  destruct (ord2ymd (ymd2ord y m d)) as [[y' m'] d'].
  destruct (ymd2ord_inj _ _ _ _ _ _ H2 Hv H1) as (-> & -> & ->). done.
Qed.

(** Seconds and civil time convert back and forth without loss. *)
Lemma local_seconds_of_local_seconds (x : Z) :
  local_seconds (of_local_seconds x) = x.
Proof.
  unfold local_seconds, of_local_seconds.
  pose proof (ymd2ord_ord2ymd (x / 86400 + epoch_ordinal)) as H.
  destruct (ord2ymd _) as [[y m] d]. simpl. rewrite H.
  Z.to_euclidean_division_equations. lia.
Qed.

Lemma of_local_seconds_valid (x : Z) : valid (of_local_seconds x).
Proof.
  unfold valid, of_local_seconds.
  pose proof (ord2ymd_valid (x / 86400 + epoch_ordinal)) as H.
  destruct (ord2ymd _) as [[y m] d]. simpl. split; [done|].
  Z.to_euclidean_division_equations. lia.
Qed.

Lemma of_local_seconds_local_seconds (dt : datetime) :
  valid dt -> of_local_seconds (local_seconds dt) = dt.
Proof.
  intros (Hd & Hh & Hm & Hs). destruct dt as [y m d h mi s]. simpl in *.
  unfold of_local_seconds, local_seconds. simpl.
  set (o := ymd2ord y m d).
  assert (Hq : ((o - epoch_ordinal) * 86400 + h * 3600 + mi * 60 + s) / 86400
               = o - epoch_ordinal)
    by (Z.to_euclidean_division_equations; lia).
  assert (Hr : ((o - epoch_ordinal) * 86400 + h * 3600 + mi * 60 + s) mod 86400
               = h * 3600 + mi * 60 + s)
    by (Z.to_euclidean_division_equations; lia).
  rewrite Hq, Hr.
  replace (o - epoch_ordinal + epoch_ordinal) with o by lia.
  subst o. rewrite ord2ymd_ymd2ord by done.
  f_equal; Z.to_euclidean_division_equations; lia.
Qed.

Lemma timestamp_fromtimestamp (tz t : Z) : timestamp tz (fromtimestamp tz t) = t.
Proof. unfold timestamp, fromtimestamp. rewrite local_seconds_of_local_seconds. lia. Qed.

Lemma fromtimestamp_timestamp (tz : Z) (dt : datetime) :
  valid dt -> fromtimestamp tz (timestamp tz dt) = dt.
Proof.
  intros Hv. unfold timestamp, fromtimestamp.
  replace (local_seconds dt - tz + tz) with (local_seconds dt) by lia.
  by apply of_local_seconds_local_seconds.
Qed.

(** Adding a timedelta moves the instant by its seconds, whatever the zone. *)
Lemma timestamp_add_timedelta (tz t s : Z) :
  timestamp tz (add_timedelta (fromtimestamp tz t) s) = t + s.
Proof.
  unfold timestamp, add_timedelta, fromtimestamp.
  rewrite !local_seconds_of_local_seconds. lia.
Qed.

End CalFacts.

(** ** The recurrence engine *)

Module RecurrenceFacts.
Import Cal CalFacts.

(** dateutil's carry of the month over the year end is plain month
    arithmetic. *)
Lemma add_relativedelta_plus_months (dt : datetime) (y m : Z) :
  1 <= month dt <= 12 -> 0 <= m < 12 ->
  add_relativedelta dt y m = plus_months dt (12 * y + m).
Proof.
  intros Hmo Hm. unfold add_relativedelta, plus_months.
  set (idx := year dt * 12 + (month dt - 1) + (12 * y + m)).
  assert (Hy : idx / 12 = if 12 <? month dt + m then year dt + y + 1 else year dt + y).
  { destruct (12 <? month dt + m) eqn:E;
      [apply Z.ltb_lt in E|apply Z.ltb_ge in E];
      subst idx; Z.to_euclidean_division_equations; lia. }
  assert (Hmm : idx mod 12 + 1
                = if 12 <? month dt + m then month dt + m - 12 else month dt + m).
  { destruct (12 <? month dt + m) eqn:E;
      [apply Z.ltb_lt in E|apply Z.ltb_ge in E];
      subst idx; Z.to_euclidean_division_equations; lia. }
  rewrite Hy, Hmm. clear Hy Hmm idx.
  destruct (m =? 0) eqn:E0; [apply Z.eqb_eq in E0|apply Z.eqb_neq in E0].
  - subst m. replace (month dt + 0) with (month dt) by lia.
    replace (12 <? month dt) with false by (symmetry; apply Z.ltb_ge; lia).
    by rewrite Z.min_comm.
  - destruct (12 <? month dt + m) eqn:E; [by rewrite Z.min_comm|].
    replace (month dt + m <? 1) with false by (symmetry; apply Z.ltb_ge; lia).
    by rewrite Z.min_comm.
Qed.

Lemma plus_months_valid (dt : datetime) (n : Z) : valid dt -> valid (plus_months dt n).
Proof.
  intros ([Hm Hd] & Hh & Hmi & Hs). unfold valid, valid_date, plus_months. simpl.
  set (idx := year dt * 12 + (month dt - 1) + n).
  pose proof (days_in_month_bounds (idx / 12) (idx mod 12 + 1)).
  pose proof (Z.mod_pos_bound idx 12 ltac:(lia)).
  repeat split; lia.
Qed.

Lemma offset_of_normalised (n : Z) (unit : string) : normalised (offset_of n unit).
Proof.
  unfold offset_of.
  repeat match goal with |- context [String.eqb ?a ?b] => destruct (String.eqb a b) end;
    simpl; try done.
  apply Z.mod_pos_bound. lia.
Qed.

(** What the engine computes, [(fromtimestamp(t) + delta).timestamp()], is
    the instant plus the offset. *)
Lemma timestamp_datetime_add (tz t : Z) (d : delta) :
  normalised d ->
  timestamp tz (datetime_add (fromtimestamp tz t) d) = plus_offset tz t d.
Proof.
  destruct d as [s|y m]; simpl; intros Hn.
  - apply timestamp_add_timedelta.
  - rewrite add_relativedelta_plus_months; [done| |done].
    apply (of_local_seconds_valid (t + tz)).
Qed.

(** The civil time of an instant moved by a calendar offset. *)
Lemma fromtimestamp_plus_offset_calendar (tz t y m : Z) :
  fromtimestamp tz (plus_offset tz t (Calendar y m))
  = plus_months (fromtimestamp tz t) (12 * y + m).
Proof.
  simpl. apply fromtimestamp_timestamp, plus_months_valid, of_local_seconds_valid.
Qed.

Lemma parse_period_recurring (item : TodoItem) :
  match recurring_offset item with
  | Some d =>
      requiring_truthy (requiring item) = true
      /\ Text.truthy (period item) = true
      /\ _parse_period (period item) = Some d /\ delta_truthy d = true
  | None =>
      requiring_truthy (requiring item) = false
      \/ Text.truthy (period item) = false
      \/ _parse_period (period item) = None
      \/ exists d, _parse_period (period item) = Some d /\ delta_truthy d = false
  end.
Proof.
  unfold recurring_offset.
  destruct (requiring item) as [[|]|]; [|by left..].
  destruct (period item) as [p|]; [|by right; left].
  destruct (Re.fullmatch_period p) as [[num unit]|] eqn:Hm.
  - apply ReFacts.fullmatch_period_iff in Hm.
    pose proof (parse_period_token _ _ _ Hm) as Hp.
    assert (Hnn : 0 <= Text.int num).
    { destruct Hm as (_ & Hn & _).
      apply ReFacts.plus_digit_iff in Hn as [? _]. by apply ReFacts.int_nonneg. }
    pose proof (offset_truthy (Text.int num) unit Hnn) as Ht.
    destruct (0 <? Text.int num).
    + repeat split; try done. destruct Hm as (-> & Hn & _).
      apply ReFacts.plus_digit_iff in Hn as [_ Hne]. by destruct num.
    + right; right; right. eauto.
  - right; right; left. unfold _parse_period.
    destruct (negb _); [done|]. by rewrite Hm.
Qed.

Lemma reschedule_item_code (tz now : Z) (item : TodoItem) :
  reschedule_item tz now item =
  match due_to_reschedule item with
  | Some d =>
      (mk_TodoItem (uid item) (summary item) NEEDS_ACTION (due_date item)
         (Some (plus_offset tz (code_base now item) d)) (description item)
         (requiring item) (period item), true)
  | None => (item, false)
  end.
Proof.
  unfold reschedule_item, due_to_reschedule.
  pose proof (parse_period_recurring item) as H.
  destruct (recurring_offset item) as [d|] eqn:Hr.
  - destruct H as (-> & -> & -> & Ht). simpl. rewrite Ht. simpl.
    destruct (decide (status item = COMPLETED)); [|done].
    assert (Hn : normalised d).
    { unfold recurring_offset in Hr.
      destruct (requiring item) as [[|]|]; try done.
      destruct (period item); try done.
      destruct (Re.fullmatch_period _) as [[num unit]|]; try done.
      destruct (0 <? _); try done. injection Hr as <-. apply offset_of_normalised. }
    unfold code_base, due_truthy.
    destruct (due_datetime item) as [t|]; [destruct (t =? 0)|]; simpl;
      by rewrite timestamp_datetime_add.
  - replace (if decide (status item = COMPLETED) then None else None)
      with (@None delta) by (by destruct (decide _)).
    destruct H as [H|[H|[H|(d & H & Hd)]]]; rewrite H; simpl; try done.
    + by rewrite orb_true_r.
    + by destruct (negb _ || negb _).
    + rewrite Hd. by destruct (negb _ || negb _).
Qed.

(** With a due instant other than the epoch itself, that is what the
    specification says. *)
Lemma reschedule_item_spec (tz now : Z) (item : TodoItem) :
  due_datetime item <> Some 0 ->
  reschedule_item tz now item =
  match due_to_reschedule item with
  | Some d => (rescheduled tz now item d, true)
  | None => (item, false)
  end.
Proof.
  intros Hz. rewrite reschedule_item_code.
  destruct (due_to_reschedule item) as [d|]; [|done].
  unfold rescheduled, code_base. do 3 f_equal.
  destruct (due_datetime item) as [t|]; [|done]. simpl.
  destruct (t =? 0) eqn:E; [|done]. apply Z.eqb_eq in E. by subst.
Qed.

Lemma reschedule_loop_map (tz now : Z) (items : list TodoItem) (updated : bool) :
  reschedule_loop tz now items updated
  = (map (fun item => (reschedule_item tz now item).1) items,
     updated || existsb (fun item => (reschedule_item tz now item).2) items).
Proof.
  revert updated. induction items as [|item rest IH]; intros updated; simpl.
  - by rewrite orb_false_r.
  - destruct (reschedule_item tz now item) as [item' changed]. rewrite IH. simpl.
    by rewrite orb_assoc.
Qed.

Lemma with_items_same (s : MyTodoList) : with_items s (_todo_items s) = s.
Proof. by destruct s. Qed.

(** The scan over the whole list, for lists without an item due at the
    epoch itself: the items due to reschedule are rescheduled and the list
    is saved once; when there is none the call does nothing at all. *)
Lemma async_update_requiring_items_spec (tz now : Z) (s : MyTodoList) :
  Forall (fun item => due_datetime item <> Some 0) (_todo_items s) ->
  async_update_requiring_items tz now s =
  if existsb (fun item => bool_decide (is_Some (due_to_reschedule item))) (_todo_items s)
  then _save_and_refresh
         (with_items s
            (map (fun item => match due_to_reschedule item with
                              | Some d => rescheduled tz now item d
                              | None => item
                              end) (_todo_items s)))
  else s.
Proof.
  intros Hz. unfold async_update_requiring_items.
  rewrite reschedule_loop_map. simpl.
  assert (Hmap : map (fun item => (reschedule_item tz now item).1) (_todo_items s)
                 = map (fun item => match due_to_reschedule item with
                                    | Some d => rescheduled tz now item d
                                    | None => item
                                    end) (_todo_items s)).
  { apply map_ext_Forall. eapply Forall_impl; [exact Hz|].
    intros item Hi. simpl. rewrite reschedule_item_spec by done.
    by destruct (due_to_reschedule item). }
  assert (Hex : existsb (fun item => (reschedule_item tz now item).2) (_todo_items s)
                = existsb (fun item => bool_decide (is_Some (due_to_reschedule item)))
                    (_todo_items s)).
  { revert Hz. generalize (_todo_items s) as items.
    induction items as [|item rest IH]; intros Hz; simpl; [done|].
    apply Forall_cons in Hz as [Hi Hrest]. rewrite (IH Hrest).
    rewrite reschedule_item_spec by done.
    by destruct (due_to_reschedule item). }
  rewrite Hmap, Hex. clear Hmap Hex.
  destruct (existsb _ _) eqn:E; [done|].
  transitivity (with_items s (_todo_items s)); [|apply with_items_same]. f_equal.
  transitivity (map (fun item => item) (_todo_items s)); [|apply map_id].
  apply map_ext_Forall.
  apply Forall_forall. intros item Hin.
  destruct (due_to_reschedule item) eqn:Hd; [|done].
  exfalso. assert (existsb (fun item => bool_decide (is_Some (due_to_reschedule item)))
                     (_todo_items s) = true); [|congruence].
  apply existsb_exists. exists item. split; [by apply list_elem_of_In|].
  rewrite Hd. by apply bool_decide_eq_true_2.
Qed.

End RecurrenceFacts.

(** ** The canonical order *)

Module SortFacts.

Lemma key_leb_total (a b : option Z) : key_leb a b = true \/ key_leb b a = true.
Proof. destruct a, b; simpl; auto. lia. Qed.

Lemma key_leb_trans (a b c : option Z) :
  key_leb a b = true -> key_leb b c = true -> key_leb a c = true.
Proof. destruct a, b, c; simpl; try done. lia. Qed.

Lemma key_leb_false (a b : option Z) : key_leb a b = false -> key_leb b a = true.
Proof. destruct (key_leb_total a b); congruence. Qed.

Lemma insert_by_due_perm (x : TodoItem) (l : list TodoItem) :
  insert_by_due x l ≡ₚ x :: l.
Proof.
  induction l as [|y l IH]; simpl; [done|].
  destruct (key_leb _ _); [done|]. rewrite IH. apply Permutation_swap.
Qed.

Lemma sort_by_due_perm (l : list TodoItem) : sort_by_due l ≡ₚ l.
Proof.
  induction l as [|x l IH]; simpl; [done|].
  by rewrite insert_by_due_perm, IH.
Qed.

Lemma insert_by_due_sorted (x : TodoItem) (l : list TodoItem) :
  sorted_by_due l -> sorted_by_due (insert_by_due x l).
Proof.
  unfold sorted_by_due. induction 1 as [|y l Hs IH Hy]; simpl.
  - repeat constructor.
  - destruct (key_leb (sort_key x) (sort_key y)) eqn:E.
    + constructor; [by constructor|].
      constructor; [done|].
      eapply Forall_impl; [exact Hy|]. intros z Hz. by eapply key_leb_trans.
    + constructor; [done|].
      rewrite insert_by_due_perm. constructor; [|done].
      by apply key_leb_false.
Qed.

Lemma sort_by_due_sorted (l : list TodoItem) : sorted_by_due (sort_by_due l).
Proof.
  induction l as [|x l IH]; simpl; [constructor|]. by apply insert_by_due_sorted.
Qed.

(** Stability: the items of one key keep the order they had. *)
Lemma insert_by_due_with_key (k : option Z) (x : TodoItem) (l : list TodoItem) :
  with_key k (insert_by_due x l) = with_key k (x :: l).
Proof.
  unfold with_key. induction l as [|y l IH]; simpl; [done|].
  destruct (key_leb (sort_key x) (sort_key y)) eqn:E; [done|].
  rewrite filter_cons, IH, !filter_cons.
  destruct (decide (sort_key y = k)) as [Hy|Hy]; [|done].
  destruct (decide (sort_key x = k)) as [Hx|Hx]; [|done].
  rewrite Hx, Hy in E. destruct k; simpl in E; [lia|done].
Qed.

Lemma sort_by_due_stable (k : option Z) (l : list TodoItem) :
  with_key k (sort_by_due l) = with_key k l.
Proof.
  induction l as [|x l IH]; simpl; [done|].
  rewrite insert_by_due_with_key. unfold with_key in *.
  by rewrite !filter_cons, IH.
Qed.

(** A list already in canonical order is left as it is. *)
Lemma sort_by_due_sorted_id (l : list TodoItem) :
  sorted_by_due l -> sort_by_due l = l.
Proof.
  unfold sorted_by_due. induction 1 as [|x l Hs IH Hx]; simpl; [done|].
  rewrite IH. destruct l as [|y l]; simpl; [done|].
  apply Forall_cons in Hx as [Hxy _]. unfold key_le in Hxy. by rewrite Hxy.
Qed.

Lemma sort_by_due_idempotent (l : list TodoItem) :
  sort_by_due (sort_by_due l) = sort_by_due l.
Proof. apply sort_by_due_sorted_id, sort_by_due_sorted. Qed.

(** Taking an item out keeps the order. *)
Lemma sorted_by_due_delete (i : nat) (l : list TodoItem) :
  sorted_by_due l -> sorted_by_due (delete i l).
Proof.
  unfold sorted_by_due. intros H. revert i.
  induction H as [|x l Hs IH Hx]; intros [|i]; simpl;
    [constructor|constructor|done|].
  constructor; [apply IH|].
  eapply Forall_forall. intros y Hy.
  rewrite Forall_forall in Hx. apply Hx.
  by eapply list_elem_of_delete_inv.
Qed.

End SortFacts.

(** ** Saving and loading *)

Module StoreFacts.

Lemma save_items (s : MyTodoList) :
  _todo_items (_save_and_refresh s) = sort_by_due (_todo_items s).
Proof. done. Qed.

Lemma save_storage (s : MyTodoList) :
  storage (_save_and_refresh s)
  = Some (Json (JDict (Some (_display_name s))
                  (Some (map to_dict (sort_by_due (_todo_items s)))))).
Proof. done. Qed.

Lemma save_trace (s : MyTodoList) :
  trace (_save_and_refresh s)
  = trace s
    ++ [FileReplaced (JDict (Some (_display_name s))
                        (Some (map to_dict (sort_by_due (_todo_items s)))));
        StateWritten]
    ++ map (fun l => Notified l (sort_by_due (_todo_items s))) (_listeners s).
Proof.
  unfold _save_and_refresh, async_update_listeners, emit, write_file. simpl.
  by rewrite <- !app_assoc.
Qed.

Lemma save_listeners (s : MyTodoList) : _listeners (_save_and_refresh s) = _listeners s.
Proof. done. Qed.

Lemma save_display_name (s : MyTodoList) :
  _display_name (_save_and_refresh s) = _display_name s.
Proof. done. Qed.

Lemma save_name (s : MyTodoList) : _name (_save_and_refresh s) = _name s.
Proof. done. Qed.

(** A save always leaves a longer trace: it is never a no-op. *)
Lemma save_neq (s : MyTodoList) (items : list TodoItem) :
  _save_and_refresh (with_items s items) <> s.
Proof.
  intros H. apply (f_equal (fun x => length (trace x))) in H.
  rewrite save_trace in H. simpl in H. rewrite length_app in H. simpl in H. lia.
Qed.

Lemma from_dict_to_dict (item : TodoItem) : from_dict (to_dict item) = Some item.
Proof. by destruct item. Qed.

Lemma mapM_from_dict_to_dict (items : list TodoItem) :
  mapM from_dict (map to_dict items) = Some items.
Proof.
  apply mapM_Some. induction items as [|x l IH]; simpl; constructor; [|done].
  apply from_dict_to_dict.
Qed.

(** What a save wrote reads back as the items in memory. *)
Lemma read_back_save (s : MyTodoList) :
  read_back (_save_and_refresh s) = _todo_items (_save_and_refresh s).
Proof.
  unfold read_back, async_load_items, new_list. simpl.
  rewrite mapM_from_dict_to_dict.
  destruct (Text.nonempty (_display_name s)); simpl;
    apply SortFacts.sort_by_due_idempotent.
Qed.

End StoreFacts.

(** C9: a legacy file, a bare array of item objects, loads to the same item
    sequence as the wrapped object whose [todo_items] holds the same
    objects, whatever display name the wrapper carries; the legacy load
    leaves the display name of the list as it was. *)
Theorem legacy_load_same_items (s : MyTodoList) (items : list item_dict)
    (stored_display_name : option string) :
  let legacy := async_load_items (with_storage s (Some (Json (JList items)))) in
  let wrapped :=
    async_load_items
      (with_storage s (Some (Json (JDict stored_display_name (Some items))))) in
  _todo_items legacy = _todo_items wrapped
  /\ _display_name legacy = _display_name s.
Proof.
  unfold async_load_items. simpl.
  destruct (mapM from_dict items); destruct (Text.truthy stored_display_name); done.
Qed.

(** ** Moving an item *)

Module MoveFacts.

(** The dictionary comprehension, one item at a time: the entry of the
    last item wins. *)
Lemma index_map_snoc (l : list TodoItem) (x : TodoItem) :
  index_map (l ++ [x]) = <[uid x := length l]> (index_map l).
Proof.
  unfold index_map. rewrite imap_app, foldl_app. simpl.
  by rewrite Nat.add_0_r.
Qed.

Lemma index_map_lookup_None (l : list TodoItem) (k : option string) :
  index_map l !! k = None <-> forall item, item ∈ l -> uid item <> k.
Proof.
  induction l as [|x l IH] using rev_ind.
  - split; [|done]. intros _ item H. by apply elem_of_nil in H.
  - rewrite index_map_snoc, lookup_insert_None, IH. split.
    + intros [H Hx] item Hin. apply elem_of_app in Hin as [Hin|Hin]; [by apply H|].
      apply list_elem_of_singleton in Hin. by subst.
    + intros H. split.
      * intros item Hin. apply H, elem_of_app. by left.
      * apply H, elem_of_app. right. by apply list_elem_of_singleton.
Qed.

Lemma index_map_lookup_Some (l : list TodoItem) (k : option string) (i : nat) :
  index_map l !! k = Some i -> exists item, l !! i = Some item /\ uid item = k.
Proof.
  induction l as [|x l IH] using rev_ind; [done|].
  rewrite index_map_snoc, lookup_insert_Some.
  intros [[<- <-]|[_ H]].
  - exists x. split; [|done]. by rewrite lookup_app_r, Nat.sub_diag.
  - destruct (IH H) as (item & Hi & Hk). exists item. split; [|done].
    by apply lookup_app_l_Some.
Qed.

Lemma with_items_with_items (s : MyTodoList) (a b : list TodoItem) :
  with_items (with_items s a) b = with_items s b.
Proof. done. Qed.

(** The move with an [after_id] that matches no item: the error is raised
    after the item was popped, and the entity is left without it. *)
Lemma move_missing_previous (s : MyTodoList) (uid0 : string) (previous_uid : option string) :
  (exists item, item ∈ _todo_items s /\ uid item = Some uid0) ->
  Text.truthy previous_uid = true ->
  (forall item, item ∈ _todo_items s -> uid item <> previous_uid) ->
  exists i item,
    _todo_items s !! i = Some item /\ uid item = Some uid0
    /\ async_move_todo_item uid0 previous_uid s
       = Raised (ValueError "Previous UID not found")
           (with_items s (delete i (_todo_items s))).
Proof.
  intros (item0 & Hin & Huid) Htruthy Hmissing.
  unfold async_move_todo_item.
  destruct (index_map (_todo_items s) !! Some uid0) as [i|] eqn:Hi.
  - destruct (index_map_lookup_Some _ _ _ Hi) as (item & Hitem & Hu).
    exists i, item. rewrite Hitem, Htruthy.
    apply index_map_lookup_None in Hmissing. by rewrite Hmissing.
  - exfalso. rewrite index_map_lookup_None in Hi. by apply (Hi item0).
Qed.

(** Every successful move is a save of a reordering of the items. *)
Lemma list_insert_at_delete_perm {A} (l : list A) (i j : nat) (x : A) :
  l !! i = Some x -> list_insert_at j x (delete i l) ≡ₚ l.
Proof.
  intros Hi. unfold list_insert_at.
  rewrite <- Permutation_middle, take_drop.
  rewrite delete_take_drop.
  rewrite <- (take_drop_middle l i x Hi) at 3.
  by rewrite <- Permutation_middle.
Qed.

Lemma move_done (s s' : MyTodoList) (uid0 : string) (previous_uid : option string) :
  async_move_todo_item uid0 previous_uid s = Done s' ->
  exists raw, raw ≡ₚ _todo_items s /\ s' = _save_and_refresh (with_items s raw).
Proof.
  unfold async_move_todo_item.
  destruct (index_map (_todo_items s) !! Some uid0) as [i|]; [|done].
  destruct (_todo_items s !! i) as [item|] eqn:Hi; [|done].
  destruct (Text.truthy previous_uid).
  - destruct (index_map (_todo_items s) !! previous_uid) as [p|]; [|done].
    intros [= <-]. eexists. split; [|by rewrite with_items_with_items].
    by apply list_insert_at_delete_perm.
  - intros [= <-]. eexists. split; [|by rewrite with_items_with_items].
    by apply list_insert_at_delete_perm.
Qed.

Lemma move_raised (s s' : MyTodoList) (e : exn) (uid0 : string)
    (previous_uid : option string) :
  async_move_todo_item uid0 previous_uid s = Raised e s' ->
  s' = s \/ exists i, s' = with_items s (delete i (_todo_items s)).
Proof.
  unfold async_move_todo_item.
  destruct (index_map (_todo_items s) !! Some uid0) as [i|]; [|intros [= _ <-]; by left].
  destruct (_todo_items s !! i) as [item|] eqn:Hi; [|intros [= _ <-]; by left].
  destruct (Text.truthy previous_uid); [|done].
  destruct (index_map (_todo_items s) !! previous_uid) as [p|]; [done|].
  intros [= _ <-]. right. by exists i.
Qed.

End MoveFacts.

(** ** Creating and updating *)

Module CreateFacts.

Lemma create_match (fresh : string) (item : TodoItem) (s : MyTodoList)
    (idx : nat) (existing : TodoItem) :
  list_find (fun e => summary e = summary item) (_todo_items s) = Some (idx, existing) ->
  async_create_todo_item fresh item s
  = _save_and_refresh
      (with_items s (<[idx := with_uid item (uid existing)]> (_todo_items s))).
Proof. unfold async_create_todo_item. by intros ->. Qed.

Lemma create_no_match (fresh : string) (item : TodoItem) (s : MyTodoList) :
  (forall existing, existing ∈ _todo_items s -> summary existing <> summary item) ->
  async_create_todo_item fresh item s
  = _save_and_refresh
      (with_items s
         (_todo_items s
          ++ [if Text.truthy (uid item) then item else with_uid item (Some fresh)])).
Proof.
  intros Hno. unfold async_create_todo_item.
  assert (Hfind : list_find (fun e => summary e = summary item) (_todo_items s) = None).
  { apply list_find_None, Forall_forall. exact Hno. }
  rewrite Hfind. by destruct (Text.truthy (uid item)).
Qed.

End CreateFacts.

(** C5, as stated, fails in its second branch: an item that comes with an
    id of its own and matches no summary is appended under that id, not
    under a newly generated one. *)
Lemma create_assigns_new_id_counterexample :
  (forall existing, existing ∈ _todo_items Sample.empty_list ->
     summary existing <> summary Sample.keyed)
  /\ _todo_items (async_create_todo_item "generated" Sample.keyed Sample.empty_list)
     <> sort_by_due (_todo_items Sample.empty_list
                     ++ [with_uid Sample.keyed (Some "generated"%string)]).
Proof.
  split.
  - intros existing H. by apply elem_of_nil in H.
  - vm_compute. discriminate.
Qed.

(** C5 (amended): [create_item(item)] either finds the first existing item
    with exactly the same summary and puts the new item in its place under
    the id of the existing one, or, when no summary matches, appends the new
    item, under its own id when it carries a non-empty one and under a newly
    generated id otherwise.  In both branches the list is then sorted,
    written to the file, and every subscriber is notified with the sorted
    list. *)
Theorem create_item_refreshes_or_appends (fresh : string) (item : TodoItem)
    (s : MyTodoList) :
  exists raw,
    ((exists idx existing,
        _todo_items s !! idx = Some existing
        /\ summary existing = summary item
        /\ (forall j y, _todo_items s !! j = Some y -> (j < idx)%nat ->
              summary y <> summary item)
        /\ raw = <[idx := with_uid item (uid existing)]> (_todo_items s))
     \/ ((forall existing, existing ∈ _todo_items s -> summary existing <> summary item)
         /\ raw = _todo_items s
                  ++ [if Text.truthy (uid item) then item
                      else with_uid item (Some fresh)]))
    /\ _todo_items (async_create_todo_item fresh item s) = sort_by_due raw
    /\ storage (async_create_todo_item fresh item s)
       = Some (Json (JDict (Some (_display_name s))
                       (Some (map to_dict (sort_by_due raw)))))
    /\ trace (async_create_todo_item fresh item s)
       = trace s
         ++ [FileReplaced (JDict (Some (_display_name s))
                             (Some (map to_dict (sort_by_due raw))));
             StateWritten]
         ++ map (fun l => Notified l (sort_by_due raw)) (_listeners s).
Proof.
  destruct (list_find (fun e => summary e = summary item) (_todo_items s))
    as [[idx existing]|] eqn:Hfind.
  - exists (<[idx := with_uid item (uid existing)]> (_todo_items s)).
    rewrite (CreateFacts.create_match _ _ _ _ _ Hfind).
    apply list_find_Some in Hfind as (Hidx & Hsum & Hfirst).
    split; [left; exists idx, existing; eauto|].
    split; [done|]. split; [done|]. apply StoreFacts.save_trace.
  - apply list_find_None in Hfind. rewrite Forall_forall in Hfind.
    eexists. rewrite (CreateFacts.create_no_match _ _ _ Hfind).
    split; [right; split; [exact Hfind|reflexivity]|].
    split; [done|]. split; [done|]. apply StoreFacts.save_trace.
Qed.

(** C10: when no existing item has the summary of the incoming item, the
    item is appended; an item that carries a non-empty uid is appended as
    it is, under exactly that uid, and an id is generated only for an item
    whose uid is empty or absent.  The appended item is in the list the
    call leaves behind. *)
Theorem create_keeps_supplied_uid (fresh : string) (item : TodoItem) (s : MyTodoList) :
  (forall existing, existing ∈ _todo_items s -> summary existing <> summary item) ->
  exists appended,
    async_create_todo_item fresh item s
    = _save_and_refresh (with_items s (_todo_items s ++ [appended]))
    /\ appended ∈ _todo_items (async_create_todo_item fresh item s)
    /\ (Text.truthy (uid item) = true -> appended = item)
    /\ (Text.truthy (uid item) = false -> appended = with_uid item (Some fresh))
    /\ (uid appended <> uid item -> Text.truthy (uid item) = false).
Proof.
  intros Hno. eexists. split; [by apply CreateFacts.create_no_match|].
  rewrite (CreateFacts.create_no_match _ _ _ Hno), StoreFacts.save_items. simpl.
  split.
  - rewrite SortFacts.sort_by_due_perm. apply elem_of_app. right.
    by apply list_elem_of_singleton.
  - destruct (Text.truthy (uid item)); repeat split; done.
Qed.

Lemma create_keeps_supplied_uid_witness :
  (forall existing, existing ∈ _todo_items Sample.two_items ->
     summary existing <> summary Sample.keyed)
  /\ exists appended,
    async_create_todo_item "generated" Sample.keyed Sample.two_items
    = _save_and_refresh
        (with_items Sample.two_items (_todo_items Sample.two_items ++ [appended]))
    /\ appended ∈ _todo_items
                    (async_create_todo_item "generated" Sample.keyed Sample.two_items)
    /\ (Text.truthy (uid Sample.keyed) = true -> appended = Sample.keyed)
    /\ (Text.truthy (uid Sample.keyed) = false ->
          appended = with_uid Sample.keyed (Some "generated"%string))
    /\ (uid appended <> uid Sample.keyed -> Text.truthy (uid Sample.keyed) = false).
Proof.
  assert (Hno : forall existing, existing ∈ _todo_items Sample.two_items ->
                  summary existing <> summary Sample.keyed).
  { intros existing H. vm_compute in H.
    apply elem_of_cons in H as [->|H]; [discriminate|].
    apply elem_of_cons in H as [->|H]; [discriminate|].
    by apply elem_of_nil in H. }
  split; [exact Hno|].
  apply (create_keeps_supplied_uid "generated" Sample.keyed Sample.two_items Hno).
Defined.

(** C1 (the code departs from it): the item with uid ["a"] exists, the
    [after_id] ["zz"] matches no item, and the move fails with the
    not-found error; the file, the subscribers and the trace are as before,
    but the item has already been popped from the in-memory sequence, which
    no longer agrees with the file. *)
Theorem move_after_missing_item_drops_item :
  exists s',
    async_move_todo_item "a" (Some "zz"%string) Sample.two_items
    = Raised (ValueError "Previous UID not found") s'
    /\ _todo_items Sample.two_items = [Sample.milk; Sample.bread]
    /\ _todo_items s' = [Sample.bread]
    /\ storage s' = storage Sample.two_items
    /\ _listeners s' = _listeners Sample.two_items
    /\ trace s' = trace Sample.two_items
    /\ read_back s' = [Sample.milk; Sample.bread].
Proof. eexists. split; [by vm_compute|]. by vm_compute. Qed.

(** C2 (the code departs from it): a completed daily item whose due instant
    is the epoch itself, [due_datetime = 0], is due to reschedule with an
    offset of 86400 seconds; the scan at clock 1000 sets its due instant to
    clock + offset = 87400, where the old due instant + offset is 86400. *)
Theorem reschedule_epoch_due_uses_clock :
  due_to_reschedule Sample.daily_at_epoch = Some (Fixed 86400)
  /\ map due_datetime
       (_todo_items
          (async_update_requiring_items 0 1000
             (with_items Sample.empty_list [Sample.daily_at_epoch])))
     = [Some 87400]
  /\ due_datetime (rescheduled 0 1000 Sample.daily_at_epoch (Fixed 86400)) = Some 86400.
Proof. by vm_compute. Qed.

Module RescheduleFacts.
Import RecurrenceFacts.

Lemma rescheduled_in_list (tz now : Z) (s : MyTodoList) (item : TodoItem) :
  item ∈ _todo_items s ->
  (reschedule_item tz now item).2 = true ->
  (reschedule_item tz now item).1 ∈ _todo_items (async_update_requiring_items tz now s).
Proof.
  intros Hin Hch. unfold async_update_requiring_items.
  rewrite reschedule_loop_map. simpl.
  assert (Hex : existsb (fun item => (reschedule_item tz now item).2) (_todo_items s) = true).
  { apply existsb_exists. exists item. split; [by apply list_elem_of_In|done]. }
  rewrite Hex, StoreFacts.save_items. simpl.
  rewrite SortFacts.sort_by_due_perm.
  by apply (list_elem_of_fmap_2 (fun item => (reschedule_item tz now item).1)).
Qed.

Lemma recurring_offset_token (item : TodoItem) (num unit : string) :
  requiring item = Some true ->
  period item = Some (num +:+ unit) ->
  period_token (num +:+ unit) num unit ->
  0 < Text.int num ->
  recurring_offset item = Some (offset_of (Text.int num) unit).
Proof.
  intros Hr Hp Htok Hpos. unfold recurring_offset. rewrite Hr, Hp.
  apply ReFacts.fullmatch_period_iff in Htok as ->.
  by apply Z.ltb_lt in Hpos as ->.
Qed.

End RescheduleFacts.



(** The same example, evaluated: January 31st plus one month is February
    28th in 2023 and February 29th in 2024, where a fixed offset of thirty
    days gives March 2nd and March 1st. *)
Example january_31_plus_one_month :
  plus_offset 0 1675166400 (relativedelta_months 1) = 1677585600
  /\ Cal.fromtimestamp 0 1677585600 = Cal.mk_datetime 2023 2 28 12 0 0
  /\ Cal.fromtimestamp 0 (1675166400 + 30 * 86400) = Cal.mk_datetime 2023 3 2 12 0 0
  /\ Cal.fromtimestamp 0 (plus_offset 0 1706702400 (relativedelta_months 1))
     = Cal.mk_datetime 2024 2 29 12 0 0
  /\ Cal.fromtimestamp 0 (1706702400 + 30 * 86400) = Cal.mk_datetime 2024 3 1 12 0 0.
Proof. by vm_compute. Qed.

(** ** Every operation, and sequences of operations *)

Module StepFacts.
Import RecurrenceFacts.

Lemma reschedule_item_unchanged (tz now : Z) (item : TodoItem) :
  (reschedule_item tz now item).2 = false -> (reschedule_item tz now item).1 = item.
Proof.
  rewrite reschedule_item_code. by destruct (due_to_reschedule item).
Qed.

Lemma reschedule_item_uid (tz now : Z) (item : TodoItem) :
  uid (reschedule_item tz now item).1 = uid item.
Proof.
  rewrite reschedule_item_code. by destruct (due_to_reschedule item).
Qed.

Lemma reschedule_cases (tz now : Z) (s : MyTodoList) :
  async_update_requiring_items tz now s = s
  \/ async_update_requiring_items tz now s
     = _save_and_refresh
         (with_items s (map (fun item => (reschedule_item tz now item).1) (_todo_items s))).
Proof.
  unfold async_update_requiring_items. rewrite reschedule_loop_map. simpl.
  destruct (existsb _ _) eqn:E; [by right|left].
  transitivity (with_items s (_todo_items s)); [|apply with_items_same]. f_equal.
  transitivity (map (fun item => item) (_todo_items s)); [|apply map_id].
  apply map_ext_Forall, Forall_forall. intros item Hin.
  apply reschedule_item_unchanged.
  destruct (reschedule_item tz now item).2 eqn:Hc; [|done].
  assert (existsb (fun item => (reschedule_item tz now item).2) (_todo_items s) = true);
    [|congruence].
  apply existsb_exists. exists item. split; [by apply list_elem_of_In|done].
Qed.

(** An operation that returns normally either did nothing at all or ended
    in a save. *)
Lemma step_done_cases (tz : Z) (o : op) (s s' : MyTodoList) :
  step tz o s = Done s' ->
  s' = s \/ exists raw, s' = _save_and_refresh (with_items s raw).
Proof.
  destruct o as [fresh item|item|uids|uid0 prev|now]; simpl.
  - intros [= <-]. right. unfold async_create_todo_item.
    destruct (list_find _ _) as [[idx existing]|]; by eexists.
  - intros [= <-]. unfold async_update_todo_item.
    destruct (list_find _ _) as [[idx existing]|]; [right; by eexists|by left].
  - intros [= <-]. right. by eexists.
  - intros H. right. apply MoveFacts.move_done in H as (raw & _ & ->). by eexists.
  - intros [= <-]. destruct (reschedule_cases tz now s) as [->| ->];
      [by left|right; by eexists].
Qed.

(** What a save establishes, for any sequence handed to it. *)
Lemma save_canonical (s : MyTodoList) (raw : list TodoItem) :
  let s' := _save_and_refresh (with_items s raw) in
  sorted_by_due (_todo_items s')
  /\ _todo_items s' ≡ₚ raw
  /\ (forall k, with_key k (_todo_items s') = with_key k raw)
  /\ storage s'
     = Some (Json (JDict (Some (_display_name s')) (Some (map to_dict (_todo_items s')))))
  /\ trace s'
     = trace s
       ++ [FileReplaced (JDict (Some (_display_name s'))
                           (Some (map to_dict (_todo_items s'))));
           StateWritten]
       ++ map (fun l => Notified l (_todo_items s')) (_listeners s').
Proof.
  simpl. split; [apply SortFacts.sort_by_due_sorted|].
  split; [apply SortFacts.sort_by_due_perm|].
  split; [intros k; apply SortFacts.sort_by_due_stable|].
  split; [done|]. apply (StoreFacts.save_trace (with_items s raw)).
Qed.

(** The canonical order is an invariant of the entity, also across a call
    that raises. *)
Lemma step_sorted (tz : Z) (o : op) (s : MyTodoList) :
  sorted_by_due (_todo_items s) -> sorted_by_due (_todo_items (after (step tz o s))).
Proof.
  intros Hs. destruct (step tz o s) as [s'|e s'] eqn:Hstep; simpl.
  - apply step_done_cases in Hstep as [->|(raw & ->)]; [done|].
    apply SortFacts.sort_by_due_sorted.
  - destruct o; try discriminate. simpl in Hstep.
    apply MoveFacts.move_raised in Hstep as [->|(i & ->)]; [done|].
    by apply SortFacts.sorted_by_due_delete.
Qed.

(** Read-back equality is kept by every operation that returns normally. *)
Lemma step_read_back (tz : Z) (o : op) (s s' : MyTodoList) :
  step tz o s = Done s' ->
  read_back s = _todo_items s -> read_back s' = _todo_items s'.
Proof.
  intros Hstep Hrb. apply step_done_cases in Hstep as [->|(raw & ->)]; [done|].
  apply StoreFacts.read_back_save.
Qed.

(** In a save, the file is replaced before the first subscriber is called,
    and the subscribers see what the file holds. *)
Lemma save_writes_before_notifying (s : MyTodoList) :
  exists data,
    trace (_save_and_refresh s)
    = trace s ++ [FileReplaced data; StateWritten]
      ++ map (fun l => Notified l (_todo_items (_save_and_refresh s))) (_listeners s)
    /\ storage (_save_and_refresh s) = Some (Json data)
    /\ data = JDict (Some (_display_name s))
                (Some (map to_dict (_todo_items (_save_and_refresh s)))).
Proof. eexists. split; [apply StoreFacts.save_trace|]. done. Qed.

(** *** Ids *)

Lemma ids_save (s : MyTodoList) : ids (_save_and_refresh s) ≡ₚ ids s.
Proof. unfold ids. rewrite StoreFacts.save_items. by rewrite SortFacts.sort_by_due_perm. Qed.

Lemma ids_replace (l : list TodoItem) (i : nat) (x y : TodoItem) :
  l !! i = Some y -> uid x = uid y -> uid <$> <[i := x]> l = uid <$> l.
Proof.
  intros Hi Hu. rewrite list_fmap_insert. apply list_insert_id.
  by rewrite list_lookup_fmap, Hi, Hu.
Qed.

Lemma step_keeps_ids (tz : Z) (o : op) (s : MyTodoList) :
  NoDup (ids s) -> keeps_ids o s -> NoDup (ids (after (step tz o s))).
Proof.
  intros Hnd Hk.
  destruct o as [fresh item|item|uids|uid0 prev|now]; cbn [step after keeps_ids] in *.
  - unfold async_create_todo_item.
    destruct (list_find _ _) as [[idx existing]|] eqn:Hfind.
    + rewrite ids_save. unfold ids. simpl.
      apply list_find_Some in Hfind as (Hidx & _ & _).
      by rewrite (ids_replace _ _ _ existing).
    + rewrite ids_save. unfold ids. simpl. rewrite fmap_app. simpl.
      destruct Hk as [(existing & Hin & Hsum)|Hk].
      { apply list_find_None in Hfind. rewrite Forall_forall in Hfind.
        by destruct (Hfind existing Hin). }
      apply NoDup_app. split; [done|]. split; [|apply NoDup_singleton].
      intros u Hu Hu'. apply list_elem_of_singleton in Hu'. subst u.
      apply Hk. by destruct (Text.truthy (uid item)).
  - unfold async_update_todo_item.
    destruct (list_find _ _) as [[idx existing]|] eqn:Hfind; [|done].
    rewrite ids_save. unfold ids. simpl.
    apply list_find_Some in Hfind as (Hidx & Htarget & _).
    rewrite (ids_replace _ _ _ existing); [done|done|].
    destruct Htarget as [[_ Hu]|[Hf _]]; [done|congruence].
  - unfold async_delete_todo_items. rewrite ids_save. unfold ids. simpl.
    eapply sublist_NoDup; [exact Hnd|].
    apply fmap_sublist, sublist_filter.
  - destruct (async_move_todo_item uid0 prev s) as [s'|e s'] eqn:Hm; simpl.
    + apply MoveFacts.move_done in Hm as (raw & Hperm & ->).
      rewrite ids_save. unfold ids. simpl. by rewrite Hperm.
    + apply MoveFacts.move_raised in Hm as [->|(i & ->)]; [done|].
      unfold ids. simpl. rewrite list_fmap_delete.
      eapply sublist_NoDup; [exact Hnd|]. apply sublist_delete.
  - destruct (reschedule_cases tz now s) as [->| ->]; [done|].
    rewrite ids_save. unfold ids. simpl.
    rewrite <- list_fmap_compose.
    erewrite (list_fmap_ext _ uid); [exact Hnd|].
    intros i x _. simpl. apply reschedule_item_uid.
Qed.

End StepFacts.



(** C7 (the code departs from it): read-back equality holds for the saved
    list; the move after a missing item raises once the item is popped, the
    update of an item the list does not hold then returns normally without
    saving, and after it the file still reads back as both items while the
    in-memory sequence holds one. *)
Theorem failed_move_breaks_read_back :
  read_back Sample.two_items = _todo_items Sample.two_items
  /\ map _todo_items
       (run 0 [Move "a" (Some "zz"%string); Update Sample.stranger] Sample.two_items)
     = [[Sample.bread]; [Sample.bread]]
  /\ map read_back
       (run 0 [Move "a" (Some "zz"%string); Update Sample.stranger] Sample.two_items)
     = [[Sample.milk; Sample.bread]; [Sample.milk; Sample.bread]]
  /\ step 0 (Update Sample.stranger)
       (after (step 0 (Move "a" (Some "zz"%string)) Sample.two_items))
     = Done (after (step 0 (Move "a" (Some "zz"%string)) Sample.two_items)).
Proof. by vm_compute. Qed.

(** C8, as stated, fails: two creates under the same caller-supplied id, with
    different summaries, leave two items with that id in a list that was
    empty. *)
Lemma ids_stay_distinct_counterexample :
  ~ Forall (fun s => NoDup (ids s))
      (run 0 [Create "g1" Sample.keyed; Create "g2" Sample.keyed_again]
         Sample.empty_list).
Proof.
  intros H. apply Forall_cons in H as [_ H]. apply Forall_cons in H as [H _].
  vm_compute in H. apply NoDup_cons in H as [H _]. apply H. by left.
Qed.

(** C8 (amended): for a list whose ids are pairwise distinct (an empty one
    in particular) and every sequence of operations in which each create
    that appends does so under an id the list does not hold yet (its own
    non-empty uid, or else the generated one) and each update carries a
    non-empty uid, the ids are pairwise distinct after each operation. *)
Theorem ids_stay_distinct (tz : Z) (ops : list op) (s : MyTodoList) :
  NoDup (ids s) ->
  run_keeps_ids tz ops s ->
  Forall (fun s' => NoDup (ids s')) (run tz ops s).
Proof.
  revert s. induction ops as [|o ops IH]; intros s Hnd Hk; simpl; [constructor|].
  destruct Hk as [Ho Hk].
  pose proof (StepFacts.step_keeps_ids tz o s Hnd Ho) as Hnd'.
  constructor; [done|]. by apply IH.
Qed.

Lemma ids_stay_distinct_witness :
  NoDup (ids Sample.empty_list)
  /\ run_keeps_ids 0
       [Create "g1" Sample.keyed; Create "g2" Sample.bread;
        Update Sample.keyed; Move "mine" None; Delete ["g2"%string];
        Reschedule 1000]
       Sample.empty_list
  /\ Forall (fun s' => NoDup (ids s'))
       (run 0 [Create "g1" Sample.keyed; Create "g2" Sample.bread;
               Update Sample.keyed; Move "mine" None; Delete ["g2"%string];
               Reschedule 1000]
          Sample.empty_list).
Proof.
  assert (Hk : run_keeps_ids 0
                 [Create "g1" Sample.keyed; Create "g2" Sample.bread;
                  Update Sample.keyed; Move "mine" None; Delete ["g2"%string];
                  Reschedule 1000]
                 Sample.empty_list).
  { simpl. repeat split; try reflexivity.
    - right. apply (bool_decide_unpack _). by vm_compute.
    - right. apply (bool_decide_unpack _). by vm_compute. }
  split; [constructor|]. split; [exact Hk|].
  apply (ids_stay_distinct 0 _ Sample.empty_list); [constructor|exact Hk].
Defined.

(** * Further properties of the code *)

(** ** Items and files *)


(** X2: what [_save_and_refresh] wrote loads, into a fresh entity, as
    exactly the item sequence the save left in memory.  The display name
    comes back too, unless it is the empty string: an empty stored name is
    ignored and the fresh entity keeps the name it was constructed with. *)
Theorem saved_file_reads_back (s : MyTodoList) (name constructed : string) :
  _todo_items
    (async_load_items (new_list name constructed (storage (_save_and_refresh s))))
  = _todo_items (_save_and_refresh s)
  /\ _display_name
       (async_load_items (new_list name constructed (storage (_save_and_refresh s))))
     = (if Text.nonempty (_display_name s) then _display_name s else constructed).
Proof.
  unfold async_load_items, new_list. simpl.
  rewrite StoreFacts.mapM_from_dict_to_dict.
  destruct (Text.nonempty (_display_name s)); simpl;
    split; try done; apply SortFacts.sort_by_due_idempotent.
Qed.

(** X3: a load is all or nothing for the items.  When one item object of
    the file has no ["summary"], none of the file's items is taken over: the
    in-memory sequence and the file are left as they were. *)
Theorem load_with_broken_item_keeps_items (s : MyTodoList) (data : json_value)
    (bad : item_dict) :
  storage s = Some (Json data) ->
  bad ∈ payload_items data ->
  j_summary bad = None ->
  _todo_items (async_load_items s) = _todo_items s
  /\ storage (async_load_items s) = storage s.
Proof.
  intros Hst Hin Hbad. unfold async_load_items. rewrite Hst.
  assert (Hnone : mapM from_dict (payload_items data) = None).
  { destruct (mapM from_dict (payload_items data)) as [items|] eqn:E; [|done].
    assert (Hs : is_Some (mapM from_dict (payload_items data))) by (by eexists).
    apply mapM_is_Some in Hs. rewrite Forall_forall in Hs.
    destruct (Hs bad Hin) as [item Hitem]. unfold from_dict in Hitem.
    by rewrite Hbad in Hitem. }
  destruct data as [stored items|items]; simpl in *; rewrite Hnone.
  - by destruct (Text.truthy stored).
  - done.
Qed.

Lemma load_with_broken_item_keeps_items_witness :
  storage Fixture.with_broken_file = Some (Json Fixture.broken_payload)
  /\ Fixture.no_summary ∈ payload_items Fixture.broken_payload
  /\ j_summary Fixture.no_summary = None
  /\ _todo_items (async_load_items Fixture.with_broken_file)
     = _todo_items Fixture.with_broken_file
  /\ storage (async_load_items Fixture.with_broken_file)
     = storage Fixture.with_broken_file.
Proof.
  assert (Hin : Fixture.no_summary ∈ payload_items Fixture.broken_payload).
  { simpl. apply elem_of_cons. right. apply list_elem_of_singleton. reflexivity. }
  split; [reflexivity|]. split; [exact Hin|]. split; [reflexivity|].
  apply (load_with_broken_item_keeps_items Fixture.with_broken_file
           Fixture.broken_payload Fixture.no_summary);
    [reflexivity|exact Hin|reflexivity].
Defined.

(** X4: when every item object of the file decodes, the load replaces the
    in-memory sequence by the decoded items in canonical order: the result
    is sorted by due instant, items without one last, the items of equal
    key keep the order they have in the file, and no item is lost or
    added. *)
Theorem load_yields_canonical_order (s : MyTodoList) (data : json_value)
    (decoded : list TodoItem) :
  storage s = Some (Json data) ->
  mapM from_dict (payload_items data) = Some decoded ->
  _todo_items (async_load_items s) = sort_by_due decoded
  /\ sorted_by_due (_todo_items (async_load_items s))
  /\ _todo_items (async_load_items s) ≡ₚ decoded
  /\ (forall k, with_key k (_todo_items (async_load_items s)) = with_key k decoded).
Proof.
  intros Hst Hdec.
  assert (H : _todo_items (async_load_items s) = sort_by_due decoded).
  { unfold async_load_items. rewrite Hst.
    destruct data as [stored items|items]; simpl in *; rewrite Hdec; [|done].
    by destruct (Text.truthy stored). }
  rewrite H. split; [done|]. split; [apply SortFacts.sort_by_due_sorted|].
  split; [apply SortFacts.sort_by_due_perm|].
  intros k. apply SortFacts.sort_by_due_stable.
Qed.

Lemma load_yields_canonical_order_witness :
  storage Fixture.with_legacy_file = Some (Json Fixture.legacy_payload)
  /\ mapM from_dict (payload_items Fixture.legacy_payload)
     = Some [Sample.bread; Sample.milk]
  /\ _todo_items (async_load_items Fixture.with_legacy_file)
     = sort_by_due [Sample.bread; Sample.milk]
  /\ sorted_by_due (_todo_items (async_load_items Fixture.with_legacy_file))
  /\ _todo_items (async_load_items Fixture.with_legacy_file)
     ≡ₚ [Sample.bread; Sample.milk]
  /\ (forall k, with_key k (_todo_items (async_load_items Fixture.with_legacy_file))
               = with_key k [Sample.bread; Sample.milk]).
Proof.
  split; [reflexivity|]. split; [reflexivity|].
  apply (load_yields_canonical_order Fixture.with_legacy_file Fixture.legacy_payload
           [Sample.bread; Sample.milk]); reflexivity.
Defined.

(** X5: loading twice is loading once: the second load of
    [async_added_to_hass] after a first [async_load_items] leaves the items,
    the display name, the subscribers and the file as the first load left
    them. *)
Theorem load_twice_is_load_once (s : MyTodoList) :
  _todo_items (async_added_to_hass (async_load_items s)) = _todo_items (async_load_items s)
  /\ _display_name (async_added_to_hass (async_load_items s))
     = _display_name (async_load_items s)
  /\ _listeners (async_added_to_hass (async_load_items s)) = _listeners (async_load_items s)
  /\ storage (async_added_to_hass (async_load_items s)) = storage (async_load_items s).
Proof.
  unfold async_added_to_hass.
  destruct s as [n d its ls [[[stored items|items]|]|] tr];
    unfold async_load_items; simpl; try done.
  - destruct (Text.truthy stored) eqn:Ht; simpl;
      destruct (mapM from_dict (default [] items)) eqn:Hm; simpl;
      rewrite ?Ht, ?Hm; simpl; rewrite ?Hm; done.
  - destruct (mapM from_dict items) eqn:Hm; simpl; rewrite ?Hm; done.
Qed.

(** ** Updating, deleting, moving *)

Module MutationFacts.

Lemma sorted_by_due_filter (P : TodoItem -> Prop) `{forall x, Decision (P x)}
    (l : list TodoItem) :
  sorted_by_due l -> sorted_by_due (filter P l).
Proof.
  unfold sorted_by_due. induction 1 as [|x l Hs IH Hx]; [constructor|].
  rewrite filter_cons. destruct (decide (P x)); [|done].
  constructor; [done|]. apply Forall_forall. intros y Hy.
  apply list_elem_of_filter in Hy as [_ Hy]. rewrite Forall_forall in Hx. by apply Hx.
Qed.

Lemma undated_sorted (l : list TodoItem) :
  Forall (fun item => due_datetime item = None) l -> sorted_by_due l.
Proof.
  unfold sorted_by_due. induction 1 as [|x l Hx Hl IH]; constructor; [done|].
  eapply Forall_impl; [exact Hl|]. intros y Hy. unfold key_le, sort_key.
  rewrite Hx, Hy. done.
Qed.

(** Two lists in canonical order with the same items are the same list
    when no two items share a due instant. *)
Lemma sorted_perm_unique (l1 l2 : list TodoItem) :
  sorted_by_due l1 -> sorted_by_due l2 -> l1 ≡ₚ l2 ->
  NoDup (sort_key <$> l1) -> l1 = l2.
Proof.
  unfold sorted_by_due. intros H1. revert l2.
  induction H1 as [|x l1 Hs1 IH Hx]; intros l2 H2 Hp Hnd.
  - by apply Permutation_nil_l in Hp.
  - destruct H2 as [|y l2 Hs2 Hy].
    { by apply Permutation_nil_r in Hp. }
    assert (x = y) as <-.
    { destruct (decide (x = y)) as [|Hne]; [done|exfalso].
      assert (Hx2 : x ∈ l2).
      { assert (Hin : x ∈ y :: l2) by (rewrite <- Hp; by left).
        apply elem_of_cons in Hin as [|]; [done|done]. }
      assert (Hy1 : y ∈ l1).
      { assert (Hin : y ∈ x :: l1) by (rewrite Hp; by left).
        apply elem_of_cons in Hin as [|]; [done|done]. }
      rewrite Forall_forall in Hx, Hy.
      specialize (Hx y Hy1). specialize (Hy x Hx2).
      unfold key_le in Hx, Hy.
      assert (Hk : sort_key x = sort_key y).
      { destruct (sort_key x), (sort_key y); simpl in *; try done. f_equal. lia. }
      rewrite fmap_cons in Hnd. apply NoDup_cons in Hnd as [Hnd _].
      apply Hnd. rewrite Hk. by apply list_elem_of_fmap_2. }
    f_equal. apply IH; [done| |].
    + by apply Permutation_cons_inv in Hp.
    + rewrite fmap_cons in Hnd. by apply NoDup_cons in Hnd as [_ ?].
Qed.

Lemma index_map_last (l : list TodoItem) (k : option string) (i : nat) :
  index_map l !! k = Some i ->
  forall j y, l !! j = Some y -> uid y = k -> (j <= i)%nat.
Proof.
  induction l as [|x l IH] using rev_ind; [done|].
  rewrite MoveFacts.index_map_snoc, lookup_insert_Some.
  intros [[<- <-]|[Hne H]] j y Hj Hy.
  - apply lookup_lt_Some in Hj. rewrite length_app in Hj. simpl in Hj. lia.
  - destruct (decide (j < length l)%nat) as [Hlt|Hge].
    + rewrite lookup_app_l in Hj by done. by eapply IH.
    + rewrite lookup_app_r in Hj by lia.
      destruct (j - length l)%nat; simpl in Hj; [|done].
      injection Hj as <-. congruence.
Qed.

End MutationFacts.

(** X6: an update that carries a non-empty uid never falls back on the
    summary: when no item has the uid, nothing at all happens (no change in
    memory, no write, no notification), even if an item with the same
    summary is in the list. *)
Theorem update_by_unknown_uid_is_noop (updated_item : TodoItem) (s : MyTodoList) :
  Text.truthy (uid updated_item) = true ->
  (forall item, item ∈ _todo_items s -> uid item <> uid updated_item) ->
  async_update_todo_item updated_item s = s.
Proof.
  intros Ht Hno. unfold async_update_todo_item.
  assert (Hfind : list_find (update_target updated_item) (_todo_items s) = None).
  { apply list_find_None, Forall_forall. intros item Hin [[_ Hu]|[Hf _]].
    - by apply (Hno item).
    - congruence. }
  by rewrite Hfind.
Qed.

Lemma update_by_unknown_uid_is_noop_witness :
  Text.truthy (uid (with_uid Sample.milk (Some "zz"%string))) = true
  /\ (forall item, item ∈ _todo_items Sample.two_items ->
        uid item <> uid (with_uid Sample.milk (Some "zz"%string)))
  /\ async_update_todo_item (with_uid Sample.milk (Some "zz"%string)) Sample.two_items
     = Sample.two_items.
Proof.
  assert (Hno : forall item, item ∈ _todo_items Sample.two_items ->
                  uid item <> uid (with_uid Sample.milk (Some "zz"%string))).
  { intros item H. vm_compute in H.
    apply elem_of_cons in H as [->|H]; [discriminate|].
    apply elem_of_cons in H as [->|H]; [discriminate|].
    by apply elem_of_nil in H. }
  split; [reflexivity|]. split; [exact Hno|].
  apply (update_by_unknown_uid_is_noop (with_uid Sample.milk (Some "zz"%string))
           Sample.two_items); [reflexivity|exact Hno].
Defined.

(** X7: an update never changes the number of items, and an update that
    carries a non-empty uid never changes the ids the list holds. *)
Theorem update_keeps_length_and_ids (updated_item : TodoItem) (s : MyTodoList) :
  length (_todo_items (async_update_todo_item updated_item s)) = length (_todo_items s)
  /\ (Text.truthy (uid updated_item) = true ->
      ids (async_update_todo_item updated_item s) ≡ₚ ids s).
Proof.
  unfold async_update_todo_item.
  destruct (list_find _ _) as [[idx target]|] eqn:Hfind; [|done].
  apply list_find_Some in Hfind as (Hidx & Htarget & _). split.
  - rewrite StoreFacts.save_items. simpl.
    rewrite SortFacts.sort_by_due_perm. apply length_insert.
  - intros Ht. rewrite StepFacts.ids_save. unfold ids. simpl.
    rewrite (StepFacts.ids_replace _ _ _ target); [done|done|].
    destruct Htarget as [[_ Hu]|[Hf _]]; [done|congruence].
Qed.

(** X8: an update without a uid is addressed by summary, and the item
    found is replaced by the incoming item as it is: the stored item ends
    up with the empty id of the update, whatever id it had before. *)
Theorem update_by_summary_takes_incoming_id (updated_item : TodoItem) (s : MyTodoList) :
  Text.truthy (uid updated_item) = false ->
  (exists item, item ∈ _todo_items s /\ summary item = summary updated_item) ->
  updated_item ∈ _todo_items (async_update_todo_item updated_item s)
  /\ exists idx target,
       _todo_items s !! idx = Some target
       /\ summary target = summary updated_item
       /\ _todo_items (async_update_todo_item updated_item s)
          = sort_by_due (<[idx := updated_item]> (_todo_items s)).
Proof.
  intros Hf (item & Hin & Hsum). unfold async_update_todo_item.
  destruct (list_find _ _) as [[idx target]|] eqn:Hfind.
  - apply list_find_Some in Hfind as (Hidx & Htarget & _).
    rewrite StoreFacts.save_items. simpl. split.
    + rewrite SortFacts.sort_by_due_perm. apply list_elem_of_insert.
      by eapply lookup_lt_Some.
    + exists idx, target. split; [done|]. split; [|done].
      destruct Htarget as [[Ht _]|[_ Hs]]; [congruence|done].
  - exfalso. apply list_find_None in Hfind. rewrite Forall_forall in Hfind.
    apply (Hfind item Hin). by right.
Qed.

Lemma update_by_summary_takes_incoming_id_witness :
  Text.truthy (uid (with_uid Sample.milk None)) = false
  /\ (exists item, item ∈ _todo_items Sample.two_items
                   /\ summary item = summary (with_uid Sample.milk None))
  /\ with_uid Sample.milk None
     ∈ _todo_items (async_update_todo_item (with_uid Sample.milk None) Sample.two_items)
  /\ exists idx target,
       _todo_items Sample.two_items !! idx = Some target
       /\ summary target = summary (with_uid Sample.milk None)
       /\ _todo_items (async_update_todo_item (with_uid Sample.milk None) Sample.two_items)
          = sort_by_due (<[idx := with_uid Sample.milk None]> (_todo_items Sample.two_items)).
Proof.
  assert (Hex : exists item, item ∈ _todo_items Sample.two_items
                             /\ summary item = summary (with_uid Sample.milk None)).
  { exists Sample.milk. split; [|reflexivity]. vm_compute. by left. }
  split; [reflexivity|]. split; [exact Hex|].
  apply (update_by_summary_takes_incoming_id (with_uid Sample.milk None) Sample.two_items);
    [reflexivity|exact Hex].
Defined.

(** X9: after [async_delete_todo_items(uids)] the list holds exactly the
    items it held whose uid is not among [uids]; an item without uid is
    never deleted.  On a list in canonical order the survivors keep their
    order.  The file is rewritten with the survivors in any case, also when
    nothing was deleted. *)
Theorem delete_removes_exactly_listed_ids (uids : list string) (s : MyTodoList) :
  (forall item, item ∈ _todo_items (async_delete_todo_items uids s)
                <-> item ∈ _todo_items s /\ uid item ∉ (Some <$> uids))
  /\ (forall item, item ∈ _todo_items s -> uid item = None ->
        item ∈ _todo_items (async_delete_todo_items uids s))
  /\ (sorted_by_due (_todo_items s) ->
      _todo_items (async_delete_todo_items uids s)
      = filter (fun item => uid item ∉ (Some <$> uids)) (_todo_items s))
  /\ storage (async_delete_todo_items uids s)
     = Some (Json (JDict (Some (_display_name s))
                     (Some (map to_dict (_todo_items (async_delete_todo_items uids s)))))).
Proof.
  assert (Hiff : forall item, item ∈ _todo_items (async_delete_todo_items uids s)
                   <-> item ∈ _todo_items s /\ uid item ∉ (Some <$> uids)).
  { intros item. unfold async_delete_todo_items. rewrite StoreFacts.save_items. simpl.
    rewrite SortFacts.sort_by_due_perm, list_elem_of_filter. tauto. }
  split; [exact Hiff|]. split; [|split; [|done]].
  - intros item Hin Hnone. apply Hiff. split; [done|]. rewrite Hnone.
    intros H. apply list_elem_of_fmap in H as (u & Hu & _). discriminate.
  - intros Hs. unfold async_delete_todo_items. rewrite StoreFacts.save_items. simpl.
    by apply SortFacts.sort_by_due_sorted_id, MutationFacts.sorted_by_due_filter.
Qed.

(** X10: a move of a uid no item carries raises the not-found error and
    leaves the entity exactly as it was: items, file, subscribers, trace. *)
Theorem move_unknown_uid_changes_nothing (uid0 : string) (previous_uid : option string)
    (s : MyTodoList) :
  (forall item, item ∈ _todo_items s -> uid item <> Some uid0) ->
  async_move_todo_item uid0 previous_uid s = Raised (ValueError "UID not found") s.
Proof.
  intros Hno. unfold async_move_todo_item.
  apply MoveFacts.index_map_lookup_None in Hno. by rewrite Hno.
Qed.

Lemma move_unknown_uid_changes_nothing_witness :
  (forall item, item ∈ _todo_items Sample.two_items -> uid item <> Some "zz"%string)
  /\ async_move_todo_item "zz" (Some "a"%string) Sample.two_items
     = Raised (ValueError "UID not found") Sample.two_items.
Proof.
  assert (Hno : forall item, item ∈ _todo_items Sample.two_items ->
                  uid item <> Some "zz"%string).
  { intros item H. vm_compute in H.
    apply elem_of_cons in H as [->|H]; [discriminate|].
    apply elem_of_cons in H as [->|H]; [discriminate|].
    by apply elem_of_nil in H. }
  split; [exact Hno|].
  apply (move_unknown_uid_changes_nothing "zz" (Some "a"%string) Sample.two_items Hno).
Defined.

(** X11: on a list in canonical order in which no two items share a due
    instant (so at most one item has none), a move that succeeds leaves the
    item sequence exactly as it was: the sort of the save puts the moved
    item back. *)
Theorem move_is_undone_by_sort (uid0 : string) (previous_uid : option string)
    (s s' : MyTodoList) :
  sorted_by_due (_todo_items s) ->
  NoDup (sort_key <$> _todo_items s) ->
  async_move_todo_item uid0 previous_uid s = Done s' ->
  _todo_items s' = _todo_items s.
Proof.
  intros Hs Hnd Hm. apply MoveFacts.move_done in Hm as (raw & Hperm & ->).
  rewrite StoreFacts.save_items. simpl. symmetry.
  apply MutationFacts.sorted_perm_unique; [done|apply SortFacts.sort_by_due_sorted| |done].
  by rewrite SortFacts.sort_by_due_perm.
Qed.

Lemma move_is_undone_by_sort_witness :
  sorted_by_due (_todo_items Sample.two_items)
  /\ NoDup (sort_key <$> _todo_items Sample.two_items)
  /\ async_move_todo_item "b" None Sample.two_items = Done Sample.moved
  /\ _todo_items Sample.moved = _todo_items Sample.two_items.
Proof.
  assert (Hs : sorted_by_due (_todo_items Sample.two_items)).
  { apply (SortFacts.sort_by_due_sorted [Sample.milk; Sample.bread]). }
  assert (Hnd : NoDup (sort_key <$> _todo_items Sample.two_items)).
  { apply (bool_decide_unpack _). by vm_compute. }
  assert (Hm : async_move_todo_item "b" None Sample.two_items = Done Sample.moved)
    by (by vm_compute).
  split; [exact Hs|]. split; [exact Hnd|]. split; [exact Hm|].
  apply (move_is_undone_by_sort "b" None Sample.two_items Sample.moved Hs Hnd Hm).
Defined.

(** X12: when several items carry the same uid, the index built for the
    move points at the last of them: it is the last item with the uid that
    a move takes. *)
Theorem index_map_points_at_last (items : list TodoItem) (k : option string) (i : nat) :
  index_map items !! k = Some i ->
  (exists item, items !! i = Some item /\ uid item = k)
  /\ (forall j other, items !! j = Some other -> uid other = k -> (j <= i)%nat).
Proof.
  intros H. split.
  - by apply MoveFacts.index_map_lookup_Some.
  - by apply MutationFacts.index_map_last.
Qed.

Lemma index_map_points_at_last_witness :
  index_map [Sample.keyed; Sample.milk; Sample.keyed_again] !! Some "mine"%string
  = Some 2%nat
  /\ (exists item, [Sample.keyed; Sample.milk; Sample.keyed_again] !! 2%nat = Some item
                   /\ uid item = Some "mine"%string)
  /\ (forall j other,
        [Sample.keyed; Sample.milk; Sample.keyed_again] !! j = Some other ->
        uid other = Some "mine"%string -> (j <= 2)%nat).
Proof.
  assert (H : index_map [Sample.keyed; Sample.milk; Sample.keyed_again]
              !! Some "mine"%string = Some 2%nat) by (by vm_compute).
  split; [exact H|].
  apply (index_map_points_at_last [Sample.keyed; Sample.milk; Sample.keyed_again]
           (Some "mine"%string) 2 H).
Defined.

(** ** Manual order, and subscribers *)

(** X13: in a list whose items have no due instant, a move without
    [previous_uid] sticks: after the save the moved item is first and the
    other items follow in the order they had. *)
Theorem move_to_front_of_undated_list (uid0 : string) (previous_uid : option string)
    (s s' : MyTodoList) :
  Forall (fun item => due_datetime item = None) (_todo_items s) ->
  Text.truthy previous_uid = false ->
  async_move_todo_item uid0 previous_uid s = Done s' ->
  exists i item,
    _todo_items s !! i = Some item /\ uid item = Some uid0
    /\ _todo_items s' = item :: delete i (_todo_items s).
Proof.
  intros Hund Hprev. unfold async_move_todo_item.
  destruct (index_map (_todo_items s) !! Some uid0) as [i|] eqn:Hi; [|done].
  destruct (MoveFacts.index_map_lookup_Some _ _ _ Hi) as (item & Hitem & Hu).
  rewrite Hitem, Hprev. intros [= <-].
  exists i, item. split; [done|]. split; [done|].
  rewrite StoreFacts.save_items.
  change (sort_by_due (item :: delete i (_todo_items s)) = item :: delete i (_todo_items s)).
  apply SortFacts.sort_by_due_sorted_id, MutationFacts.undated_sorted.
  constructor.
  - rewrite Forall_forall in Hund. apply Hund. by eapply list_elem_of_lookup_2.
  - apply Forall_forall. intros y Hy. rewrite Forall_forall in Hund.
    apply Hund. by eapply list_elem_of_delete_inv.
Qed.

Lemma move_to_front_of_undated_list_witness :
  Forall (fun item => due_datetime item = None) (_todo_items Fixture.undated)
  /\ Text.truthy None = false
  /\ async_move_todo_item "mine" None Fixture.undated = Done Fixture.undated_moved
  /\ exists i item,
       _todo_items Fixture.undated !! i = Some item /\ uid item = Some "mine"%string
       /\ _todo_items Fixture.undated_moved = item :: delete i (_todo_items Fixture.undated).
Proof.
  assert (Hund : Forall (fun item => due_datetime item = None)
                   (_todo_items Fixture.undated)).
  { repeat constructor. }
  assert (Hm : async_move_todo_item "mine" None Fixture.undated
               = Done Fixture.undated_moved) by (by vm_compute).
  split; [exact Hund|]. split; [reflexivity|]. split; [exact Hm|].
  apply (move_to_front_of_undated_list "mine" None Fixture.undated
           Fixture.undated_moved Hund eq_refl Hm).
Defined.

(** X14: in a list whose items have no due instant, a move after another
    item sticks: after the save the moved item stands immediately behind
    the item with [previous_uid]. *)
Theorem move_after_in_undated_list (uid0 : string) (previous_uid : option string)
    (s s' : MyTodoList) :
  Forall (fun item => due_datetime item = None) (_todo_items s) ->
  Text.truthy previous_uid = true ->
  previous_uid <> Some uid0 ->
  async_move_todo_item uid0 previous_uid s = Done s' ->
  exists j item previous,
    item ∈ _todo_items s /\ uid item = Some uid0
    /\ previous ∈ _todo_items s /\ uid previous = previous_uid
    /\ _todo_items s' !! j = Some previous
    /\ _todo_items s' !! S j = Some item.
Proof.
  intros Hund Hprev Hne. unfold async_move_todo_item.
  destruct (index_map (_todo_items s) !! Some uid0) as [i|] eqn:Hi; [|done].
  destruct (MoveFacts.index_map_lookup_Some _ _ _ Hi) as (item & Hitem & Hu).
  rewrite Hitem, Hprev.
  destruct (index_map (_todo_items s) !! previous_uid) as [p|] eqn:Hp; [|done].
  destruct (MoveFacts.index_map_lookup_Some _ _ _ Hp) as (previous & Hprevious & Hpu).
  intros [= <-].
  assert (Hpi : p <> i).
  { intros ->. rewrite Hitem in Hprevious. injection Hprevious as <-. congruence. }
  set (p' := if (i <? p)%nat then (p - 1)%nat else p).
  assert (Hrest : delete i (_todo_items s) !! p' = Some previous).
  { subst p'. destruct (i <? p)%nat eqn:E.
    - apply Nat.ltb_lt in E. rewrite list_lookup_delete_ge by lia.
      by replace (S (p - 1)) with p by lia.
    - apply Nat.ltb_ge in E. by rewrite list_lookup_delete_lt by lia. }
  exists p', item, previous.
  split; [by eapply list_elem_of_lookup_2|]. split; [done|].
  split; [by eapply list_elem_of_lookup_2|]. split; [done|].
  rewrite StoreFacts.save_items. cbn [_todo_items with_items].
  fold p'. rewrite SortFacts.sort_by_due_sorted_id.
  - unfold list_insert_at.
    assert (Hlen : length (take (p' + 1) (delete i (_todo_items s))) = S p').
    { rewrite length_take_le; [lia|]. apply lookup_lt_Some in Hrest. lia. }
    split.
    + rewrite lookup_app_l by lia. rewrite lookup_take_lt by lia. done.
    + by apply list_lookup_middle.
  - apply MutationFacts.undated_sorted.
    by rewrite MoveFacts.list_insert_at_delete_perm.
Qed.

Lemma move_after_in_undated_list_witness :
  Forall (fun item => due_datetime item = None) (_todo_items Fixture.undated)
  /\ Text.truthy (Some "b"%string) = true
  /\ Some "b"%string <> Some "f"%string
  /\ async_move_todo_item "f" (Some "b"%string) Fixture.undated = Done Fixture.undated_after
  /\ exists j item previous,
       item ∈ _todo_items Fixture.undated /\ uid item = Some "f"%string
       /\ previous ∈ _todo_items Fixture.undated /\ uid previous = Some "b"%string
       /\ _todo_items Fixture.undated_after !! j = Some previous
       /\ _todo_items Fixture.undated_after !! S j = Some item.
Proof.
  assert (Hund : Forall (fun item => due_datetime item = None)
                   (_todo_items Fixture.undated)).
  { repeat constructor. }
  assert (Hne : Some "b"%string <> Some "f"%string) by discriminate.
  assert (Hm : async_move_todo_item "f" (Some "b"%string) Fixture.undated
               = Done Fixture.undated_after) by (by vm_compute).
  split; [exact Hund|]. split; [reflexivity|]. split; [exact Hne|]. split; [exact Hm|].
  apply (move_after_in_undated_list "f" (Some "b"%string) Fixture.undated
           Fixture.undated_after Hund eq_refl Hne Hm).
Defined.

Module ListenerFacts.

Lemma delivered_app (l : listener) (tr1 tr2 : list event) :
  delivered l (tr1 ++ tr2) = delivered l tr1 ++ delivered l tr2.
Proof. apply omap_app. Qed.

(** One round of notifications calls a subscriber once for each time it is
    registered. *)
Lemma delivered_round_absent (l : listener) (ls : list listener) (items : list TodoItem) :
  l ∉ ls -> delivered l (map (fun l' => Notified l' items) ls) = [].
Proof.
  induction ls as [|l' ls IH]; intros Hl; [done|].
  apply not_elem_of_cons in Hl as [Hne Hl]. unfold delivered in *. simpl.
  destruct (decide (l' = l)); [congruence|]. by apply IH.
Qed.

Lemma delivered_round_ne (l l0 : listener) (ls : list listener) (items : list TodoItem) :
  l0 <> l ->
  delivered l (map (fun l' => Notified l' items) (ls ++ [l0]))
  = delivered l (map (fun l' => Notified l' items) ls).
Proof.
  intros Hne. rewrite map_app, delivered_app. simpl. unfold delivered at 2. simpl.
  destruct (decide (l0 = l)); [congruence|]. by rewrite app_nil_r.
Qed.

Lemma list_remove_first_snoc (l : listener) (ls : list listener) :
  l ∉ ls -> list_remove_first l (ls ++ [l]) = Some ls.
Proof.
  induction ls as [|l' ls IH]; intros Hl; simpl.
  - by rewrite decide_True.
  - apply not_elem_of_cons in Hl as [Hne Hl].
    rewrite decide_False by congruence. by rewrite IH.
Qed.

Lemma list_remove_first_absent (l : listener) (ls : list listener) :
  l ∉ ls -> list_remove_first l ls = None.
Proof.
  induction ls as [|l' ls IH]; intros Hl; simpl; [done|].
  apply not_elem_of_cons in Hl as [Hne Hl].
  rewrite decide_False by congruence. by rewrite IH.
Qed.

End ListenerFacts.

(** X15: a new subscriber is called at once with the current item
    sequence, and then once by the next save, with the sequence the save
    leaves in memory; what the other subscribers are called with is the
    same as without the new one. *)
Theorem subscriber_hears_current_then_every_save (l : listener) (s : MyTodoList) :
  l ∉ _listeners s ->
  delivered l (trace (_save_and_refresh (async_subscribe_updates l s)))
  = delivered l (trace s) ++ [_todo_items s; sort_by_due (_todo_items s)]
  /\ (forall other, other <> l ->
        delivered other (trace (_save_and_refresh (async_subscribe_updates l s)))
        = delivered other (trace (_save_and_refresh s))).
Proof.
  intros Hl. rewrite !StoreFacts.save_trace.
  change (trace (async_subscribe_updates l s))
    with (trace s ++ [Notified l (_todo_items s)]).
  change (_listeners (async_subscribe_updates l s)) with (_listeners s ++ [l]).
  change (_todo_items (async_subscribe_updates l s)) with (_todo_items s).
  change (_display_name (async_subscribe_updates l s)) with (_display_name s).
  split.
  - rewrite !ListenerFacts.delivered_app. rewrite map_app, ListenerFacts.delivered_app.
    rewrite ListenerFacts.delivered_round_absent by done.
    unfold delivered at 2 3 4. simpl.
    destruct (decide (l = l)); [|done]. by rewrite <- app_assoc.
  - intros other Hne. rewrite !ListenerFacts.delivered_app.
    rewrite ListenerFacts.delivered_round_ne by done.
    unfold delivered at 2. simpl.
    destruct (decide (l = other)); [congruence|]. by rewrite app_nil_r.
Qed.

Lemma subscriber_hears_current_then_every_save_witness :
  (8%nat ∉ _listeners Sample.two_items)
  /\ delivered 8%nat
       (trace (_save_and_refresh (async_subscribe_updates 8%nat Sample.two_items)))
     = delivered 8%nat (trace Sample.two_items)
       ++ [_todo_items Sample.two_items; sort_by_due (_todo_items Sample.two_items)]
  /\ (forall other, other <> 8%nat ->
        delivered other
          (trace (_save_and_refresh (async_subscribe_updates 8%nat Sample.two_items)))
        = delivered other (trace (_save_and_refresh Sample.two_items))).
Proof.
  assert (Hl : 8%nat ∉ _listeners Sample.two_items).
  { apply (bool_decide_unpack _). by vm_compute. }
  split; [exact Hl|].
  apply (subscriber_hears_current_then_every_save 8%nat Sample.two_items Hl).
Defined.

(** X16: the handle [async_subscribe_updates] returns undoes the
    subscription: calling it once restores the subscribers as they were, a
    save after it no longer calls the subscriber, and calling it a second
    time raises [ValueError] and changes nothing. *)
Theorem unsubscribe_undoes_subscribe (l : listener) (s : MyTodoList) :
  l ∉ _listeners s ->
  exists s1,
    remove_listener l (async_subscribe_updates l s) = Done s1
    /\ _listeners s1 = _listeners s
    /\ _todo_items s1 = _todo_items s
    /\ storage s1 = storage s
    /\ delivered l (trace (_save_and_refresh s1)) = delivered l (trace s1)
    /\ remove_listener l s1 = Raised (ValueError "list.remove(x): x not in list") s1.
Proof.
  intros Hl.
  exists (emit s [Notified l (_todo_items s)]).
  assert (Hl1 : l ∉ _listeners (emit s [Notified l (_todo_items s)])) by done.
  split.
  { unfold remove_listener.
    change (_listeners (async_subscribe_updates l s)) with (_listeners s ++ [l]).
    by rewrite ListenerFacts.list_remove_first_snoc. }
  split; [done|]. split; [done|]. split; [done|]. split.
  - rewrite StoreFacts.save_trace, !ListenerFacts.delivered_app.
    rewrite ListenerFacts.delivered_round_absent by done.
    change (delivered l [FileReplaced
                           (JDict (Some (_display_name (emit s [Notified l (_todo_items s)])))
                              (Some (map to_dict
                                 (sort_by_due
                                    (_todo_items (emit s [Notified l (_todo_items s)]))))));
                         StateWritten]) with (@nil (list TodoItem)).
    by rewrite !app_nil_r.
  - unfold remove_listener.
    by rewrite ListenerFacts.list_remove_first_absent.
Qed.

Lemma unsubscribe_undoes_subscribe_witness :
  (8%nat ∉ _listeners Sample.two_items)
  /\ exists s1,
       remove_listener 8%nat (async_subscribe_updates 8%nat Sample.two_items) = Done s1
       /\ _listeners s1 = _listeners Sample.two_items
       /\ _todo_items s1 = _todo_items Sample.two_items
       /\ storage s1 = storage Sample.two_items
       /\ delivered 8%nat (trace (_save_and_refresh s1)) = delivered 8%nat (trace s1)
       /\ remove_listener 8%nat s1
          = Raised (ValueError "list.remove(x): x not in list") s1.
Proof.
  assert (Hl : 8%nat ∉ _listeners Sample.two_items).
  { apply (bool_decide_unpack _). by vm_compute. }
  split; [exact Hl|].
  apply (unsubscribe_undoes_subscribe 8%nat Sample.two_items Hl).
Defined.

(** ** The recurrence scan *)

Module ScanFacts.
Import RecurrenceFacts.

(** The status of a rescheduled item keeps it out of the next scan. *)
Lemma rescheduled_not_due (tz now : Z) (item : TodoItem) :
  due_to_reschedule (reschedule_item tz now item).1 = None.
Proof.
  rewrite reschedule_item_code.
  destruct (due_to_reschedule item) as [d|] eqn:E; simpl; [|done].
  unfold due_to_reschedule. simpl. done.
Qed.

Lemma scan_without_due_items (tz now : Z) (s : MyTodoList) :
  Forall (fun item => due_to_reschedule item = None) (_todo_items s) ->
  async_update_requiring_items tz now s = s.
Proof.
  intros Hnone. unfold async_update_requiring_items.
  rewrite reschedule_loop_map. simpl.
  assert (Hex : existsb (fun item => (reschedule_item tz now item).2) (_todo_items s)
                = false).
  { revert Hnone. generalize (_todo_items s) as items.
    induction items as [|item rest IH]; intros Hnone; simpl; [done|].
    apply Forall_cons in Hnone as [Hi Hrest]. rewrite (IH Hrest).
    rewrite reschedule_item_code, Hi. done. }
  rewrite Hex.
  transitivity (with_items s (_todo_items s)); [|apply with_items_same]. f_equal.
  transitivity (map (fun item => item) (_todo_items s)); [|apply map_id].
  apply map_ext_Forall. eapply Forall_impl; [exact Hnone|].
  intros item Hi. simpl. by rewrite reschedule_item_code, Hi.
Qed.

Lemma scan_items (tz now : Z) (s : MyTodoList) :
  _todo_items (async_update_requiring_items tz now s)
  ≡ₚ map (fun item => (reschedule_item tz now item).1) (_todo_items s).
Proof.
  destruct (StepFacts.reschedule_cases tz now s) as [H|H]; rewrite H.
  - unfold async_update_requiring_items in H. rewrite reschedule_loop_map in H.
    simpl in H. destruct (existsb _ _).
    + apply (f_equal (fun x => length (trace x))) in H.
      rewrite StoreFacts.save_trace in H. simpl in H.
      rewrite length_app in H. simpl in H. lia.
    + by rewrite <- H at 1.
  - rewrite StoreFacts.save_items. simpl. apply SortFacts.sort_by_due_perm.
Qed.

Lemma needs_action_count_perm (l1 l2 : list TodoItem) :
  l1 ≡ₚ l2 -> needs_action_count l1 = needs_action_count l2.
Proof. intros H. unfold needs_action_count. by rewrite H. Qed.

End ScanFacts.




(** X19: a scan changes nothing but the status and the due instant of
    items: the list holds as many items as before, and the other fields
    (uid, summary, due date, description, requiring, period) are those it
    held before, item for item. *)
Theorem scan_touches_only_status_and_due (tz now : Z) (s : MyTodoList) :
  length (_todo_items (async_update_requiring_items tz now s)) = length (_todo_items s)
  /\ kept_fields <$> _todo_items (async_update_requiring_items tz now s)
     ≡ₚ kept_fields <$> _todo_items s
  /\ _listeners (async_update_requiring_items tz now s) = _listeners s
  /\ _display_name (async_update_requiring_items tz now s) = _display_name s.
Proof.
  split; [|split].
  - rewrite ScanFacts.scan_items. apply length_map.
  - rewrite ScanFacts.scan_items.
    change (map (fun item => (reschedule_item tz now item).1) (_todo_items s))
      with ((fun item => (reschedule_item tz now item).1) <$> _todo_items s).
    rewrite <- list_fmap_compose.
    erewrite (list_fmap_ext _ kept_fields); [done|].
    intros i item _. simpl. rewrite RecurrenceFacts.reschedule_item_code.
    by destruct (due_to_reschedule item).
  - destruct (StepFacts.reschedule_cases tz now s) as [->| ->]; done.
Qed.


(** ** Validator and parsers *)

Module ParserFacts.

Lemma fullmatch_iff_parse (s : string) :
  is_Some (Re.fullmatch_period s) <-> is_Some (_parse_period (Some s)).
Proof.
  split.
  - intros [[num unit] Hm]. apply ReFacts.fullmatch_period_iff in Hm.
    rewrite (parse_period_token _ _ _ Hm). by eexists.
  - intros [d Hd]. apply parse_period_Some in Hd as (num & unit & Htok & _).
    exists (num, unit). by apply ReFacts.fullmatch_period_iff.
Qed.

Lemma before_final_newline_iff (s s' : string) :
  Intent.before_final_newline s = Some s' <-> s = s' +:+ Intent.newline.
Proof.
  revert s'. induction s as [|c s IH]; intros s'.
  - simpl. split; [done|]. by destruct s'.
  - destruct s as [|c2 s2].
    + simpl. destruct (Ascii.eqb c "010") eqn:E.
      * apply Ascii.eqb_eq in E as ->. split.
        -- by intros [= <-].
        -- destruct s' as [|c' s'']; [done|].
           unfold Intent.newline. simpl. intros [= _ H]. by destruct s''.
      * split; [done|]. destruct s' as [|c' s'']; unfold Intent.newline; simpl.
        -- intros [= ->]. by rewrite Ascii.eqb_refl in E.
        -- intros [= _ H]. by destruct s''.
    + change (Intent.before_final_newline (String c (String c2 s2)))
        with (String c <$> Intent.before_final_newline (String c2 s2)).
      split.
      * intros H. apply fmap_Some in H as (r & Hr & ->).
        apply IH in Hr. simpl. by rewrite Hr.
      * destruct s' as [|c' s'']; [done|].
        change (String c' s'' +:+ Intent.newline)
          with (String c' (s'' +:+ Intent.newline)).
        intros [= <- H]. apply IH in H. by rewrite H.
Qed.

(** The intent parser turns every matched pair of groups into a duration. *)
Lemma intent_parse_of_match (s num unit : string) :
  Intent.match_period s = Some (num, unit) ->
  Re.matches Re.unit_re unit ->
  Intent.parse_period s
  = Some (if String.eqb unit "minute" then timedelta_minutes (Text.int num)
          else if String.eqb unit "hour" then timedelta_hours (Text.int num)
          else if String.eqb unit "day" then timedelta_days (Text.int num)
          else if String.eqb unit "week" then timedelta_weeks (Text.int num)
          else if String.eqb unit "month" then timedelta_days (30 * Text.int num)
          else timedelta_days (365 * Text.int num)).
Proof.
  intros Hm Hu. unfold Intent.parse_period. rewrite Hm.
  apply ReFacts.unit_re_iff in Hu. unfold Re.unit_words in Hu.
  rewrite !elem_of_cons in Hu.
  destruct Hu as [->|[->|[->|[->|[->|[->|Hu]]]]]]; [done..|by apply elem_of_nil in Hu].
Qed.

End ParserFacts.





(** ** The remove services *)

Module ServiceFacts.
Import Service.

Lemma delete_elem_of (uids : list string) (s : MyTodoList) (item : TodoItem) :
  item ∈ _todo_items (async_delete_todo_items uids s)
  <-> item ∈ _todo_items s /\ uid item ∉ (Some <$> uids).
Proof.
  unfold async_delete_todo_items. rewrite StoreFacts.save_items. simpl.
  rewrite SortFacts.sort_by_due_perm, list_elem_of_filter. tauto.
Qed.

Lemma collect_uids_inl (names : list string) (items : list TodoItem)
    (acc : list string) (item_name : string) :
  collect_uids names items acc = inl item_name ->
  item_name ∈ names /\ rejected item_name items.
Proof.
  revert acc. induction names as [|n names IH]; intros acc; simpl; [done|].
  destruct (find_named n items) as [found|] eqn:Hf.
  - destruct (uid found) as [u|] eqn:Hu.
    + destruct (Text.nonempty u) eqn:Hne.
      * intros H. destruct (IH _ H) as [Hin Hr]. split; [by right|done].
      * intros [= <-]. split; [by left|]. right. exists found.
        split; [done|]. by rewrite Hu.
    + intros [= <-]. split; [by left|]. right. exists found.
      split; [done|]. by rewrite Hu.
  - intros [= <-]. split; [by left|]. by left.
Qed.

Lemma collect_uids_inr (names : list string) (items : list TodoItem)
    (acc uids : list string) :
  collect_uids names items acc = inr uids ->
  exists new,
    uids = acc ++ new
    /\ (forall n, n ∈ names ->
          exists found u, find_named n items = Some found
                          /\ uid found = Some u /\ u ∈ new)
    /\ (forall u, u ∈ new ->
          exists n found, n ∈ names /\ find_named n items = Some found
                          /\ uid found = Some u).
Proof.
  revert acc. induction names as [|n names IH]; intros acc; simpl.
  - intros [= <-]. exists []. rewrite app_nil_r. split; [done|].
    split; intros x Hx; by apply elem_of_nil in Hx.
  - destruct (find_named n items) as [found|] eqn:Hf; [|done].
    destruct (uid found) as [u|] eqn:Hu; [|done].
    destruct (Text.nonempty u); [|done].
    intros H. destruct (IH _ H) as (new & -> & Hall & Hback).
    exists (u :: new). split; [by rewrite <- app_assoc|]. split.
    + intros n' Hn'. apply elem_of_cons in Hn' as [->|Hn'].
      * exists found, u. split; [done|]. split; [done|]. by left.
      * destruct (Hall n' Hn') as (f' & u' & ? & ? & ?).
        exists f', u'. split; [done|]. split; [done|]. by right.
    + intros u' Hu'. apply elem_of_cons in Hu' as [->|Hu'].
      * exists n, found. split; [by left|done].
      * destruct (Hback u' Hu') as (n' & f' & ? & ? & ?).
        exists n', f'. split; [by right|done].
Qed.

Lemma find_named_elem_of (item_name : string) (items : list TodoItem) (found : TodoItem) :
  find_named item_name items = Some found -> found ∈ items.
Proof.
  unfold find_named. intros H. apply fmap_Some in H as ([i x] & Hf & ->).
  apply list_find_Some in Hf as (Hi & _). simpl. by eapply list_elem_of_lookup_2.
Qed.

Lemma completed_uids_elem_of (items : list TodoItem) (u : string) :
  u ∈ completed_uids items
  <-> exists item, item ∈ items /\ status item = COMPLETED
                   /\ uid item = Some u /\ Text.nonempty u = true.
Proof.
  unfold completed_uids. rewrite list_elem_of_omap. split.
  - intros (item & Hin & H). exists item. split; [done|].
    destruct (decide (status item = COMPLETED)); [|done].
    destruct (uid item) as [u'|]; [|done].
    destruct (Text.nonempty u') eqn:E; [|done]. by injection H as ->.
  - intros (item & Hin & Hst & Hu & Hne). exists item. split; [done|].
    destruct (decide (status item = COMPLETED)); [|done].
    by rewrite Hu, Hne.
Qed.

Lemma NoDup_fmap_eq {A B} (f : A -> B) (l : list A) (x y : A) :
  NoDup (f <$> l) -> x ∈ l -> y ∈ l -> f x = f y -> x = y.
Proof.
  intros Hnd Hx Hy Hf.
  apply list_elem_of_lookup_1 in Hx as [i Hi]. apply list_elem_of_lookup_1 in Hy as [j Hj].
  assert (i = j) as ->.
  { eapply (NoDup_lookup (f <$> l) i j (f x)); [done| |].
    - by rewrite list_lookup_fmap, Hi.
    - by rewrite list_lookup_fmap, Hj, Hf. }
  congruence.
Qed.

End ServiceFacts.

(** X24: the remove service is all or nothing.  When one of the names
    answers to no item, or to an item without a usable uid, the call is
    rejected with that name and the entity is left exactly as it was, also
    for the names that came before.  Otherwise the item each name answers
    to is gone after the call, and an item survives when no such item
    shares its uid. *)
Theorem remove_items_is_all_or_nothing (names : list string) (s : MyTodoList) :
  match Service._async_remove_todo_items names s with
  | Service.ServiceValidationError item_name s' =>
      s' = s /\ item_name ∈ names /\ Service.rejected item_name (_todo_items s)
  | Service.Served s' =>
      (forall n, n ∈ names ->
         exists found, Service.find_named n (_todo_items s) = Some found
                       /\ found ∉ _todo_items s')
      /\ (forall item, item ∈ _todo_items s ->
            (forall n found, n ∈ names ->
               Service.find_named n (_todo_items s) = Some found ->
               uid found <> uid item) ->
            item ∈ _todo_items s')
  end.
Proof.
  unfold Service._async_remove_todo_items.
  destruct (Service.collect_uids names (_todo_items s) []) as [bad|uids] eqn:Hc.
  - apply ServiceFacts.collect_uids_inl in Hc as [Hin Hr]. done.
  - apply ServiceFacts.collect_uids_inr in Hc as (new & -> & Hall & Hback).
    change ([] ++ new) with new. split.
    + intros n Hn. destruct (Hall n Hn) as (found & u & Hf & Hu & Hin).
      exists found. split; [done|]. intros Hfound.
      apply ServiceFacts.delete_elem_of in Hfound as [_ Hnot].
      apply Hnot. rewrite Hu. by apply list_elem_of_fmap_2.
    + intros item Hitem Hother. apply ServiceFacts.delete_elem_of. split; [done|].
      intros Hu. apply list_elem_of_fmap in Hu as (u & Hu & Hin).
      destruct (Hback u Hin) as (n & found & Hn & Hf & Hfu).
      apply (Hother n found Hn Hf). congruence.
Qed.

(** X25: after the remove-completed service no COMPLETED item with a
    non-empty uid is left; a list that holds none to begin with is not
    touched at all (nothing is written, nobody is notified); and in a list
    with pairwise distinct ids every item that needs action survives. *)
Theorem remove_completed_items_result (s : MyTodoList) :
  (forall item, item ∈ _todo_items (Service._async_remove_completed_items s) ->
     status item = COMPLETED -> Text.truthy (uid item) = false)
  /\ ((forall item, item ∈ _todo_items s -> status item = COMPLETED ->
         Text.truthy (uid item) = false) ->
      Service._async_remove_completed_items s = s)
  /\ (NoDup (ids s) ->
      forall item, item ∈ _todo_items s -> status item = NEEDS_ACTION ->
        item ∈ _todo_items (Service._async_remove_completed_items s)).
Proof.
  split; [|split].
  - intros item Hin Hst.
    destruct (Text.truthy (uid item)) eqn:Ht; [exfalso|done].
    destruct (uid item) as [u|] eqn:Hu; [|done]. simpl in Ht.
    unfold Service._async_remove_completed_items in Hin.
    destruct (Service.completed_uids (_todo_items s)) as [|u0 us] eqn:Hc.
    + assert (Hmem : u ∈ Service.completed_uids (_todo_items s)).
      { apply ServiceFacts.completed_uids_elem_of. by exists item. }
      rewrite Hc in Hmem. by apply elem_of_nil in Hmem.
    + apply ServiceFacts.delete_elem_of in Hin as [Hin Hnot].
      apply Hnot. rewrite Hu. apply list_elem_of_fmap_2. rewrite <- Hc.
      apply ServiceFacts.completed_uids_elem_of. by exists item.
  - intros Hnone. unfold Service._async_remove_completed_items.
    destruct (Service.completed_uids (_todo_items s)) as [|u0 us] eqn:Hc; [done|].
    exfalso.
    assert (Hmem : u0 ∈ Service.completed_uids (_todo_items s))
      by (rewrite Hc; by left).
    apply ServiceFacts.completed_uids_elem_of in Hmem as (item & Hin & Hst & Hu & Hne).
    specialize (Hnone item Hin Hst). rewrite Hu in Hnone. simpl in Hnone. congruence.
  - intros Hnd item Hin Hst. unfold Service._async_remove_completed_items.
    destruct (Service.completed_uids (_todo_items s)) as [|u0 us] eqn:Hc; [done|].
    apply ServiceFacts.delete_elem_of. split; [done|].
    intros Hu. apply list_elem_of_fmap in Hu as (u & Hu & Hmem).
    rewrite <- Hc in Hmem.
    apply ServiceFacts.completed_uids_elem_of in Hmem as (other & Hoin & Host & Hou & _).
    assert (item = other).
    { apply (ServiceFacts.NoDup_fmap_eq uid (_todo_items s)); [done|done|done|congruence]. }
    subst other. congruence.
Qed.

(** ** Creating twice, and the failed move in general *)

Module CreateTwiceFacts.

(** The item [async_create_todo_item] stores for an incoming item. *)
Lemma create_stores (fresh : string) (item : TodoItem) (s : MyTodoList) :
  NoDup (summary <$> _todo_items s) ->
  exists u,
    with_uid item u ∈ _todo_items (async_create_todo_item fresh item s)
    /\ NoDup (summary <$> _todo_items (async_create_todo_item fresh item s)).
Proof.
  intros Hnd. unfold async_create_todo_item.
  destruct (list_find _ _) as [[idx existing]|] eqn:Hfind.
  - apply list_find_Some in Hfind as (Hidx & Hsum & _).
    exists (uid existing). rewrite StoreFacts.save_items. simpl.
    rewrite !SortFacts.sort_by_due_perm. split.
    + apply list_elem_of_insert. by eapply lookup_lt_Some.
    + rewrite list_fmap_insert. simpl.
      rewrite list_insert_id; [done|].
      rewrite list_lookup_fmap, Hidx. simpl. by rewrite Hsum.
  - apply list_find_None in Hfind. rewrite Forall_forall in Hfind.
    exists (if Text.truthy (uid item) then uid item else Some fresh).
    rewrite StoreFacts.save_items. simpl. rewrite !SortFacts.sort_by_due_perm.
    assert (Heq : (if negb (Text.truthy (uid item)) then with_uid item (Some fresh)
                   else item)
                  = with_uid item (if Text.truthy (uid item) then uid item
                                   else Some fresh)).
    { destruct (Text.truthy (uid item)); simpl; [by destruct item|done]. }
    rewrite Heq. split.
    + apply elem_of_app. right. by apply list_elem_of_singleton.
    + rewrite fmap_app. apply NoDup_app. split; [done|].
      split; [|apply NoDup_singleton].
      intros x Hx Hx'. apply list_elem_of_singleton in Hx'. simpl in Hx'. subst x.
      apply list_elem_of_fmap in Hx as (e & He & Hin). by apply (Hfind e Hin).
Qed.

End CreateTwiceFacts.

(** X26: in a list whose summaries are pairwise distinct, creating the same
    item a second time changes nothing in the item sequence: the second call
    finds the item the first call stored and puts the same item in its
    place. *)
Theorem create_twice_is_create_once (fresh fresh' : string) (item : TodoItem)
    (s : MyTodoList) :
  NoDup (summary <$> _todo_items s) ->
  _todo_items (async_create_todo_item fresh' item (async_create_todo_item fresh item s))
  = _todo_items (async_create_todo_item fresh item s).
Proof.
  intros Hnd.
  destruct (CreateTwiceFacts.create_stores fresh item s Hnd) as (u & Hstored & Hnd1).
  set (s1 := async_create_todo_item fresh item s) in *.
  assert (Hsorted : sorted_by_due (_todo_items s1)).
  { subst s1. unfold async_create_todo_item.
    destruct (list_find _ _) as [[idx existing]|];
      rewrite StoreFacts.save_items; apply SortFacts.sort_by_due_sorted. }
  unfold async_create_todo_item at 1.
  destruct (list_find _ (_todo_items s1)) as [[idx existing]|] eqn:Hfind.
  - apply list_find_Some in Hfind as (Hidx & Hsum & _).
    assert (existing = with_uid item u) as ->.
    { apply (ServiceFacts.NoDup_fmap_eq summary (_todo_items s1)); try done.
      by eapply list_elem_of_lookup_2. }
    rewrite StoreFacts.save_items. cbn [_todo_items with_items uid with_uid].
    rewrite list_insert_id by done.
    by apply SortFacts.sort_by_due_sorted_id.
  - exfalso. apply list_find_None in Hfind. rewrite Forall_forall in Hfind.
    by apply (Hfind _ Hstored).
Qed.

Lemma create_twice_is_create_once_witness :
  NoDup (summary <$> _todo_items Sample.two_items)
  /\ _todo_items
       (async_create_todo_item "g2" Sample.keyed
          (async_create_todo_item "g1" Sample.keyed Sample.two_items))
     = _todo_items (async_create_todo_item "g1" Sample.keyed Sample.two_items).
Proof.
  assert (Hnd : NoDup (summary <$> _todo_items Sample.two_items)).
  { apply (bool_decide_unpack _). by vm_compute. }
  split; [exact Hnd|].
  apply (create_twice_is_create_once "g1" "g2" Sample.keyed Sample.two_items Hnd).
Defined.

(** X27: a create makes the list one item longer exactly when no item has
    the summary of the incoming item; otherwise the list keeps its
    length. *)
Theorem create_grows_list_only_for_new_summary (fresh : string) (item : TodoItem)
    (s : MyTodoList) :
  ((exists existing, existing ∈ _todo_items s /\ summary existing = summary item) ->
     length (_todo_items (async_create_todo_item fresh item s)) = length (_todo_items s))
  /\ ((forall existing, existing ∈ _todo_items s -> summary existing <> summary item) ->
        length (_todo_items (async_create_todo_item fresh item s))
        = S (length (_todo_items s))).
Proof.
  unfold async_create_todo_item.
  destruct (list_find _ _) as [[idx existing]|] eqn:Hfind;
    rewrite StoreFacts.save_items; simpl; rewrite SortFacts.sort_by_due_perm.
  - apply list_find_Some in Hfind as (Hidx & Hsum & _). split.
    + intros _. apply length_insert.
    + intros Hno. exfalso. apply (Hno existing); [|done].
      by eapply list_elem_of_lookup_2.
  - apply list_find_None in Hfind. rewrite Forall_forall in Hfind. split.
    + intros (e & Hin & Hsum). exfalso. by apply (Hfind e Hin).
    + intros _. rewrite length_app. simpl. lia.
Qed.


